(** * The SSH-config text engine and the identity merge of the GitHub SSH
      user switcher ([src/extension.ts])

    The extension reads and rewrites [~/.ssh/config] line by line and merges
    the identities found there with a user-managed list.  This development
    embeds the three file operations ([parseGitHubSSHIdentities],
    [isActiveIdentity], [setActiveGitHubIdentity]) and the merge of
    [getChildren] as Rocq functions and proves their properties.

    Modelling choices.
    - A JavaScript string is a [string]: a sequence of 8-bit code units
      (the Latin-1 range of UTF-16).  White space, lower-casing and the two
      regular expressions of the source are spelled out on that range.
    - The file system is reduced to the one file the engine touches: the
      state is [option string], [None] when [~/.ssh/config] does not exist.
    - [undefined] and [null] are both [None]: the source only tests them for
      truthiness or compares them with [===] against a string.
    - [path.basename] is Node's POSIX implementation. *)

From Stdlib Require Import Ascii String.
From stdpp Require Import base list strings.


(** ** JavaScript string primitives used by the source *)

Module Js.

Definition LF : ascii := ascii_of_nat 10.
Definition CR : ascii := ascii_of_nat 13.

(** [WhiteSpace] and [LineTerminator] of ECMAScript below U+0100: TAB, LF,
    VT, FF, CR, SP and NBSP.  This is the set both [String.prototype.trim]
    and the regular-expression class [\s] use. *)
Definition is_ws (c : ascii) : bool :=
  let n := nat_of_ascii c in
  (((9 <=? n) && (n <=? 13)) || (n =? 32) || (n =? 160))%nat.

(** [String.prototype.toLowerCase] on one code unit below U+0100: A-Z and
    the capital letters U+00C0-U+00DE (without the multiplication sign
    U+00D7) move up by 32. *)
Definition lower_char (c : ascii) : ascii :=
  let n := nat_of_ascii c in
  if (((65 <=? n) && (n <=? 90))
      || ((192 <=? n) && (n <=? 222) && negb (n =? 215)))%nat
  then ascii_of_nat (n + 32) else c.

Fixpoint toLowerCase (s : string) : string :=
  match s with
  | EmptyString => EmptyString
  | String c r => String (lower_char c) (toLowerCase r)
  end.

(** [s.startsWith(p)] *)
Fixpoint startsWith (s p : string) {struct p} : bool :=
  match p with
  | EmptyString => true
  | String a p' =>
      match s with
      | EmptyString => false
      | String b s' => Ascii.eqb a b && startsWith s' p'
      end
  end.

Fixpoint trimStart (s : string) : string :=
  match s with
  | EmptyString => EmptyString
  | String c r => if is_ws c then trimStart r else s
  end.

Fixpoint trimEnd (s : string) : string :=
  match s with
  | EmptyString => EmptyString
  | String c r =>
      match trimEnd r with
      | EmptyString => if is_ws c then EmptyString else String c EmptyString
      | r' => String c r'
      end
  end.

(** [s.trim()] *)
Definition trim (s : string) : string := trimEnd (trimStart s).

(** Prepend a code unit to the first piece of a split. *)
Definition cons_first (c : ascii) (pieces : list string) : list string :=
  match pieces with
  | p :: ps => String c p :: ps
  | [] => [String c EmptyString]
  end.

(** [s.split(/\r?\n/)]: a separator is LF or CR LF; the pieces around the
    separators are returned, empty ones included.  The empty string gives
    one empty piece. *)
Fixpoint split_lines (s : string) : list string :=
  match s with
  | EmptyString => [EmptyString]
  | String c rest =>
      if Ascii.eqb c LF then EmptyString :: split_lines rest
      else if Ascii.eqb c CR then
        match rest with
        | String c' rest' =>
            if Ascii.eqb c' LF then EmptyString :: split_lines rest'
            else cons_first c (split_lines rest)
        | EmptyString => cons_first c (split_lines rest)
        end
      else cons_first c (split_lines rest)
  end.

(** [s.split(/\s+/)]: a separator is a maximal run of white space.
    [in_run] tells that the code unit before was white space, so that the
    separator is already open. *)
Fixpoint split_ws_from (in_run : bool) (s : string) : list string :=
  match s with
  | EmptyString => [EmptyString]
  | String c rest =>
      if is_ws c then
        if in_run then split_ws_from true rest
        else EmptyString :: split_ws_from true rest
      else cons_first c (split_ws_from false rest)
  end.

Definition split_ws (s : string) : list string := split_ws_from false s.

(** [lines.join('\n')] *)
Definition join_lines (lines : list string) : string :=
  String.concat (String LF EmptyString) lines.

(** [path.basename(p)] of Node's [path.posix]: trailing slashes are
    dropped, then everything up to the last slash: the last component
    of the path that is not empty ([components] cuts the path at every
    slash). *)
Definition is_slash (c : ascii) : bool := Ascii.eqb c "/"%char.

Fixpoint components (cur : string) (s : string) : list string :=
  match s with
  | EmptyString => [cur]
  | String c r =>
      if is_slash c then cur :: components EmptyString r
      else components (cur +:+ String c EmptyString) r
  end.

Definition basename (p : string) : string :=
  List.last (List.filter (fun t => negb (String.eqb t EmptyString))
                         (components EmptyString p))
            EmptyString.

End Js.

(** ** Data model *)

(** [interface SSHConnection].  Optional fields are [option]s. *)
Record SSHConnection := {
  name : string;
  host : string;
  user : string;
  port : option N;
  keyFile : option string;
  gitName : option string;
  gitEmail : option string;
  password : option string
}.

(** The state of the file system as far as the engine is concerned: the
    content of [~/.ssh/config], [None] when the file does not exist. *)
Definition config_file := option string.

(** ** Line recognisers shared by the three loops *)

(** [trimmed.toLowerCase().startsWith('host ')] *)
Definition is_host_line (trimmed : string) : bool :=
  Js.startsWith (Js.toLowerCase trimmed) "host ".

(** [trimmed.toLowerCase().startsWith('identityfile')] *)
Definition is_identityfile_line (trimmed : string) : bool :=
  Js.startsWith (Js.toLowerCase trimmed) "identityfile".

(** [trimmed.split(/\s+/)[1]], [None] for [undefined]. *)
Definition second_token (trimmed : string) : option string :=
  Js.split_ws trimmed !! 1%nat.

(** [x === 'github.com'] for a value that may be [null] or [undefined]. *)
Definition is_github (x : option string) : bool :=
  bool_decide (x = Some "github.com").

(** ** [SSHConnectionProvider.isActiveIdentity] *)

Fixpoint isActive_loop (keyFile : option string) (inGitHubHost : bool)
    (lines : list string) : bool :=
  match lines with
  | [] => false
  | line :: rest =>
      let trimmed := Js.trim line in
      let inGitHubHost :=
        if is_host_line trimmed then is_github (second_token trimmed)
        else inGitHubHost in
      if inGitHubHost && is_identityfile_line trimmed
      then bool_decide (second_token trimmed = keyFile)
      else isActive_loop keyFile inGitHubHost rest
  end.

Definition isActive_lines (keyFile : option string) (lines : list string) : bool :=
  isActive_loop keyFile false lines.

Definition isActiveIdentity (connection : SSHConnection) (fs : config_file) : bool :=
  match fs with
  | None => false
  | Some content => isActive_lines (keyFile connection) (Js.split_lines content)
  end.

(** ** [parseGitHubSSHIdentities] *)

(** The record pushed for a discovered identity file. *)
Definition discovered (identityFile : string) : SSHConnection :=
  {| name := Js.basename identityFile;
     host := "github.com";
     user := "git";
     port := Some 22%N;
     keyFile := Some identityFile;
     gitName := None; gitEmail := None; password := None |}.

(** [if (currentHost === 'github.com' && identityFile) connections.push(..)];
    a string is truthy when it is not empty. *)
Definition flush (connections : list SSHConnection)
    (currentHost identityFile : option string) : list SSHConnection :=
  match identityFile with
  | Some f =>
      if is_github currentHost && negb (String.eqb f "")
      then connections ++ [discovered f]
      else connections
  | None => connections
  end.

Fixpoint parse_loop (connections : list SSHConnection)
    (currentHost identityFile : option string) (lines : list string)
    : list SSHConnection :=
  match lines with
  | [] => flush connections currentHost identityFile
  | line :: rest =>
      let trimmed := Js.trim line in
      if is_host_line trimmed then
        parse_loop (flush connections currentHost identityFile)
                   (second_token trimmed) None rest
      else if is_identityfile_line trimmed && is_github currentHost then
        parse_loop connections currentHost (second_token trimmed) rest
      else parse_loop connections currentHost identityFile rest
  end.

Definition parse_lines (lines : list string) : list SSHConnection :=
  parse_loop [] None None lines.

Definition parseGitHubSSHIdentities (fs : config_file) : list SSHConnection :=
  match fs with
  | None => []
  | Some content => parse_lines (Js.split_lines content)
  end.

(** ** [setActiveGitHubIdentity] *)

(** The template literal of the rewritten line. *)
Definition identity_line (identityFile : string) : string :=
  "    IdentityFile " +:+ identityFile.

(** The [for] loop: [i] is the index of the head of [rest]; the result is
    the index at which the loop assigns [lines[i]] and breaks, [None] when
    it runs to the end with [found] still false. *)
Fixpoint setActive_loop (inGitHubHost : bool) (i : nat) (rest : list string)
    : option nat :=
  match rest with
  | [] => None
  | line :: rest' =>
      let trimmed := Js.trim line in
      let inGitHubHost :=
        if is_host_line trimmed then is_github (second_token trimmed)
        else inGitHubHost in
      if inGitHubHost && is_identityfile_line trimmed then Some i
      else setActive_loop inGitHubHost (S i) rest'
  end.

Definition setActive_lines (identityFile : string) (lines : list string)
    : list string :=
  match setActive_loop false 0 lines with
  | Some i => <[i := identity_line identityFile]> lines
  | None => lines ++ ["Host github.com"; identity_line identityFile]
  end.

Definition setActiveGitHubIdentity (identityFile : string) (fs : config_file)
    : config_file :=
  match fs with
  | None => None
  | Some content =>
      Some (Js.join_lines (setActive_lines identityFile (Js.split_lines content)))
  end.

(** ** The engine as a state machine over the file *)

Inductive operation :=
| Scan
| IsActive (connection : SSHConnection)
| SetActive (identityFile : string).

Inductive outcome :=
| Identities (l : list SSHConnection)
| Answer (b : bool)
| Done.

Definition run (op : operation) (fs : config_file) : outcome * config_file :=
  match op with
  | Scan => (Identities (parseGitHubSSHIdentities fs), fs)
  | IsActive c => (Answer (isActiveIdentity c fs), fs)
  | SetActive k => (Done, setActiveGitHubIdentity k fs)
  end.

(** ** [SSHConnectionProvider.getChildren] (root call) *)

(** One turn of the [for ... of] loop over the discovered identities. *)
Definition merge_step (all : list SSHConnection) (c : SSHConnection)
    : list SSHConnection :=
  match List.find (fun e => bool_decide (keyFile e = keyFile c)) all with
  | Some _ => all
  | None => all ++ [c]
  end.

Definition getChildren (connections : list SSHConnection) (fs : config_file)
    : list SSHConnection :=
  fold_left merge_step (parseGitHubSSHIdentities fs) connections.

(** ** Host blocks, declaratively *)

(** A [Host] line whose pattern is the target host. *)
Definition is_github_host_line (line : string) : bool :=
  is_host_line (Js.trim line) && is_github (second_token (Js.trim line)).

(** Line [i] lies in a github-scoped block: the block starts at a [Host]
    line [h] with pattern [github.com] and no other [Host] line comes
    between [h] and [i]. *)
Definition github_scoped (lines : list string) (i : nat) : Prop :=
  ∃ h hl, h ≤ i ∧ lines !! h = Some hl ∧ is_github_host_line hl = true ∧
    ∀ j l, h < j ≤ i → lines !! j = Some l → is_host_line (Js.trim l) = false.

(** Line [i] is an [IdentityFile] line inside a github-scoped block. *)
Definition scoped_identity (lines : list string) (i : nat) : Prop :=
  github_scoped lines i ∧
  ∃ l, lines !! i = Some l ∧ is_identityfile_line (Js.trim l) = true.

(** ... and it is the first such line of the document. *)
Definition first_scoped_identity (lines : list string) (i : nat) : Prop :=
  scoped_identity lines i ∧ ∀ j, j < i → ¬ scoped_identity lines j.

(** The value of [inGitHubHost] after the loop body has seen [line]. *)
Definition next_scope (inGitHubHost : bool) (line : string) : bool :=
  if is_host_line (Js.trim line) then is_github (second_token (Js.trim line))
  else inGitHubHost.

(** The value of [inGitHubHost] when the loop tests line [i], started with
    [b] at line 0. *)
Fixpoint scope_at (b : bool) (lines : list string) (i : nat) : bool :=
  match lines with
  | [] => false
  | l :: r =>
      match i with
      | O => next_scope b l
      | S i' => scope_at (next_scope b l) r i'
      end
  end.

Definition target_at (b : bool) (lines : list string) (i : nat) : bool :=
  scope_at b lines i &&
  match lines !! i with
  | Some l => is_identityfile_line (Js.trim l)
  | None => false
  end.

(** ** The spec's wording: the FIRST github-scoped block *)

(** The lines of a block after its [Host] line: up to the line before the
    next [Host] line, or the end of the document. *)
Fixpoint block_body (lines : list string) : list string :=
  match lines with
  | [] => []
  | l :: r => if is_host_line (Js.trim l) then [] else l :: block_body r
  end.

(** Index of the [Host] line of the first github-scoped block, with the
    block's body. *)
Fixpoint spec_first_github_block (i : nat) (lines : list string)
    : option (nat * list string) :=
  match lines with
  | [] => None
  | l :: r =>
      if is_github_host_line l then Some (i, block_body r)
      else spec_first_github_block (S i) r
  end.

(** Index in the document and text of the first [IdentityFile] line of the
    first github-scoped block. *)
Definition spec_first_block_identity (lines : list string)
    : option (nat * string) :=
  match spec_first_github_block 0 lines with
  | Some (h, body) =>
      match list_find (λ l, Is_true (is_identityfile_line (Js.trim l))) body with
      | Some (j, l) => Some (S (h + j), l)
      | None => None
      end
  | None => None
  end.

(** [isActive] as the spec words it. *)
Definition spec_isActive (k : string) (fs : config_file) : bool :=
  match fs with
  | None => false
  | Some content =>
      match spec_first_block_identity (Js.split_lines content) with
      | Some (_, l) => bool_decide (second_token (Js.trim l) = Some k)
      | None => false
      end
  end.

(** [setActive] on an existing document as the spec words it. *)
Definition spec_setActive_lines (k : string) (lines : list string) : list string :=
  match spec_first_block_identity lines with
  | Some (i, _) => <[i := identity_line k]> lines
  | None => lines ++ ["Host github.com"; identity_line k]
  end.

(** ** Line breaks inside lines *)

Fixpoint has_LF (s : string) : bool :=
  match s with
  | EmptyString => false
  | String c r => Ascii.eqb c Js.LF || has_LF r
  end.

Fixpoint ends_CR (s : string) : bool :=
  match s with
  | EmptyString => false
  | String c EmptyString => Ascii.eqb c Js.CR
  | String _ r => ends_CR r
  end.

(** Drop one carriage return at the end. *)
Fixpoint chomp (s : string) : string :=
  match s with
  | EmptyString => EmptyString
  | String c r =>
      match r with
      | EmptyString => if Ascii.eqb c Js.CR then EmptyString else s
      | _ => String c (chomp r)
      end
  end.

(** What [split_lines] reads back from lines written with [join_lines]:
    every line but the last loses a final carriage return to the
    separator. *)
Fixpoint reread (lines : list string) : list string :=
  match lines with
  | [] => [EmptyString]
  | [x] => [x]
  | x :: r => chomp x :: reread r
  end.

(** The string is not empty and its last code unit is not white space. *)
Fixpoint ends_nonws (s : string) : bool :=
  match s with
  | EmptyString => false
  | String c EmptyString => negb (Js.is_ws c)
  | String _ r => ends_nonws r
  end.

(** ** Sample documents and records *)

Definition doc_of (lines : list string) : string := Js.join_lines lines.

(** Two github-scoped blocks, the first of them without an [IdentityFile]
    line. *)
Definition two_block_lines : list string :=
  ["Host github.com"; "    User git"; "Host github.com"; "    IdentityFile /a"].

(** One github-scoped block whose last [IdentityFile] line has no
    argument. *)
Definition bare_last_lines : list string :=
  ["Host github.com"; "    IdentityFile /a"; "    IdentityFile /b";
   "    IdentityFile"].

(** A github-scoped block with an [IdentityFile] line, then a bare one, at
    the end of the document. *)
Definition bare_trailing_lines : list string :=
  ["Host gitlab.com"; "    IdentityFile /g"; "Host github.com";
   "    IdentityFile /home/u/.ssh/id_work"; "    IdentityFile"].

(** A managed record, as the add command builds it. *)
Definition managed (label key gname gemail : string) : SSHConnection :=
  {| name := label; host := "github.com"; user := "git"; port := Some 22%N;
     keyFile := Some key;
     gitName := Some gname; gitEmail := Some gemail; password := None |}.

(** A managed record for the work key, and a document with the work key
    and a second key in github-scoped blocks. *)
Definition work_record : SSHConnection :=
  managed "Work" "/home/u/.ssh/id_work" "U" "u@work".

Definition work_home_lines : list string :=
  ["Host github.com"; "    IdentityFile /home/u/.ssh/id_work";
   "Host github.com"; "    IdentityFile /home/u/.ssh/id_home"].

(** Two managed records entered with the same key file. *)
Definition same_key_records : list SSHConnection :=
  [managed "Work" "/home/u/.ssh/id_rsa" "U" "u@work";
   managed "Home" "/home/u/.ssh/id_rsa" "U" "u@home"].

(** Three github-scoped blocks; the middle one has two [IdentityFile]
    lines. *)
Definition three_block_lines : list string :=
  ["Host github.com"; "    IdentityFile /g1";
   "Host github.com"; "    IdentityFile /a"; "    User git";
   "    IdentityFile /b"; "    Port 22";
   "Host github.com"; "    IdentityFile /g2"].

(** A document that ends inside a github-scoped block (its last line is
    empty, as after a final line break). *)
Definition trailing_block_lines : list string :=
  ["Host gitlab.com"; "    IdentityFile /g"; "Host github.com";
   "    User git"; "    IdentityFile /home/u/.ssh/id_work"; ""].

(** An [IdentityFile] line above the first [Host] line. *)
Definition leading_identity_lines : list string :=
  ["IdentityFile /x"; "Host github.com"; "    IdentityFile /y"].

(** A file that ends with a carriage return, and a path with a line feed
    in it. *)
Definition stray_cr_document : string := String "a" (String Js.CR "").

Definition two_line_path : string := "/a" +:+ String Js.LF "/b".

(** ** The discovered-only records, declaratively *)

(** The records of a scan that the merged view shows after the managed
    ones: those whose [keyFile] occurs neither among the managed records nor
    earlier in the scan, in scan order. *)
Definition discovered_only (connections disc : list SSHConnection)
    : list SSHConnection :=
  (filter (λ p : nat * SSHConnection,
             (keyFile p.2 ∉ keyFile <$> connections)
             ∧ (keyFile p.2 ∉ keyFile <$> take p.1 disc))
          (imap pair disc)).*2.

(** A scan that finds the key [/a] twice, around the key [/b]. *)
Definition repeated_key_lines : list string :=
  ["Host github.com"; "    IdentityFile /a";
   "Host github.com"; "    IdentityFile /b";
   "Host github.com"; "    IdentityFile /a"].

(** A github-scoped block with an [IdentityFile] line, followed by another
    block. *)
Definition github_gitlab_lines : list string :=
  ["Host github.com"; "    IdentityFile /old"; "Host gitlab.com"].

(** ** [updateGitConfigAuthor] *)

(** The longest prefix without an opening bracket, [[^\[]*], and what
    follows it. *)
Fixpoint span_section (s : string) : string * string :=
  match s with
  | EmptyString => (EmptyString, EmptyString)
  | String c r =>
      if Ascii.eqb c "["%char then (EmptyString, s)
      else let '(body, rest) := span_section r in (String c body, rest)
  end.

(** [s] without its prefix [p], when it has that prefix. *)
Fixpoint strip_prefix (p s : string) {struct p} : option string :=
  match p with
  | EmptyString => Some s
  | String a p' =>
      match s with
      | EmptyString => None
      | String b s' => if Ascii.eqb a b then strip_prefix p' s' else None
      end
  end.

(** The leftmost match of [/\[user\][^\[]*/] in [s]: the text before the
    match, the match, and the text after it. *)
Fixpoint match_user_section (s : string) : option (string * string * string) :=
  match strip_prefix "[user]" s with
  | Some tail =>
      let '(body, rest) := span_section tail in
      Some (EmptyString, "[user]" +:+ body, rest)
  | None =>
      match s with
      | EmptyString => None
      | String c r =>
          match match_user_section r with
          | Some (before, matched, after) => Some (String c before, matched, after)
          | None => None
          end
      end
  end.

(** [GetSubstitution] of ECMAScript for a pattern without capture groups:
    in the replacement text [$$] stands for a dollar sign, [$&] for the
    match, [$`] for the text before it and [$'] for the text after it; any
    other dollar sign stands for itself. *)
Fixpoint get_substitution (matched before after tpl : string) {struct tpl}
    : string :=
  match tpl with
  | EmptyString => EmptyString
  | String c r =>
      if Ascii.eqb c "$"%char then
        match r with
        | String d r' =>
            if Ascii.eqb d "$"%char
            then String "$" (get_substitution matched before after r')
            else if Ascii.eqb d "&"%char
            then matched +:+ get_substitution matched before after r'
            else if Ascii.eqb d "`"%char
            then before +:+ get_substitution matched before after r'
            else if Ascii.eqb d "'"%char
            then after +:+ get_substitution matched before after r'
            else String c (get_substitution matched before after r)
        | EmptyString => String c EmptyString
        end
      else String c (get_substitution matched before after r)
  end.

Definition TAB : ascii := ascii_of_nat 9.

(** The template literal [`[user]\n\tname = ${name}\n\temail = ${email}\n`]. *)
Definition user_section (name email : string) : string :=
  "[user]" +:+ String Js.LF (String TAB "name = ") +:+ name +:+
  String Js.LF (String TAB "email = ") +:+ email +:+ String Js.LF "".

(** The new content of an existing [.git/config]. *)
Definition patch_git_config (name email config : string) : string :=
  match match_user_section config with
  | Some (before, matched, after) =>
      before +:+
      get_substitution matched before after (user_section name email) +:+
      after
  | None => config +:+ String Js.LF (user_section name email)
  end.

(** The workspace as far as the function is concerned: [None] without a
    workspace folder, otherwise the [.git/config] of the first folder
    ([None] when that file does not exist). *)
Definition workspace := option config_file.

Definition updateGitConfigAuthor (name email : string) (ws : workspace)
    : workspace :=
  match ws with
  | None => None
  | Some None => Some None
  | Some (Some config) => Some (Some (patch_git_config name email config))
  end.

(** ** Methods of [SSHConnectionProvider] and [SSHManager] on the managed
       list and on the two files *)

(** What the command of the extension can write to. *)
Record files := {
  ssh_config : config_file;
  git_workspace : workspace
}.

(** A string property that may be [undefined] is truthy when it is a string
    and not empty. *)
Definition truthy (o : option string) : bool :=
  match o with
  | Some s => negb (String.eqb s "")
  | None => false
  end.

Module SSHConnectionProvider.

(** [setActiveGitHubIdentity(identityFile)]: the method rewrites the SSH
    configuration, then looks the key up in the managed records followed by
    the identities of the rewritten file, and patches the git author when
    the record found has both [gitName] and [gitEmail]. *)
Definition setActiveGitHubIdentity (connections : list SSHConnection)
    (identityFile : string) (fs : files) : files :=
  let ssh := setActiveGitHubIdentity identityFile (ssh_config fs) in
  let all := connections ++ parseGitHubSSHIdentities ssh in
  match List.find (fun c => bool_decide (keyFile c = Some identityFile)) all with
  | Some conn =>
      match gitName conn, gitEmail conn with
      | Some gn, Some ge =>
          if truthy (gitName conn) && truthy (gitEmail conn)
          then {| ssh_config := ssh;
                  git_workspace := updateGitConfigAuthor gn ge (git_workspace fs) |}
          else {| ssh_config := ssh; git_workspace := git_workspace fs |}
      | _, _ => {| ssh_config := ssh; git_workspace := git_workspace fs |}
      end
  | None => {| ssh_config := ssh; git_workspace := git_workspace fs |}
  end.

(** [deleteConnection(connection)], the managed array as it is handed to
    [saveConnections]: the first record of that name is spliced out. *)
Definition deleteConnection (connection : SSHConnection)
    (connections : list SSHConnection) : list SSHConnection :=
  match list_find (λ c, name c = name connection) connections with
  | Some (index, _) => delete index connections
  | None => connections
  end.

End SSHConnectionProvider.

(** ** Documents with CR LF line ends *)

Definition join_crlf (lines : list string) : string :=
  String.concat (String Js.CR (String Js.LF EmptyString)) lines.

(** The string holds a white-space code unit. *)
Fixpoint has_ws (s : string) : bool :=
  match s with
  | EmptyString => false
  | String c r => Js.is_ws c || has_ws r
  end.

(** The string holds the given code unit. *)
Fixpoint has_char (x : ascii) (s : string) : bool :=
  match s with
  | EmptyString => false
  | String c r => Ascii.eqb c x || has_char x r
  end.

(** A git configuration with a [core] section, a [user] section and a
    [remote] section. *)
Definition sample_git_config : string :=
  "[core]" +:+ String Js.LF (String TAB "bare = false") +:+
  String Js.LF "[user]" +:+ String Js.LF (String TAB "name = Old") +:+
  String Js.LF "[remote]" +:+ String Js.LF (String TAB "url = git@github.com:u/r").


(** A document without a github-scoped block. *)
Definition gitlab_only_lines : list string :=
  ["Host gitlab.com"; "    IdentityFile /g"].

(** The value tracked by the scan loop is [null], [undefined] or one word
    read from a line. *)
Definition tracked_ok (idf : option string) : Prop :=
  ∀ f, idf = Some f → f ≠ "" → has_ws f = false.

(** The number of [Host] lines with pattern [github.com]. *)
Definition github_blocks (lines : list string) : nat :=
  length (List.filter is_github_host_line lines).

(** [p] occurs in [s] as a substring. *)
Definition occurs (p s : string) : Prop := ∃ b a, s = b +:+ p +:+ a.

(** The string is empty or starts with an opening bracket. *)
Definition at_section_start (s : string) : Prop :=
  s = "" ∨ ∃ r, s = String "[" r.


(** * Properties *)

(** ** The string primitives on examples *)

Example split_lines_crlf :
  Js.split_lines ("a" +:+ String Js.CR (String Js.LF "b") +:+ String Js.LF "")
  = ["a"; "b"; ""].
Proof. reflexivity. Qed.

Example split_lines_stray_cr :
  Js.split_lines (String "a" (String Js.CR (String Js.CR (String Js.LF "b"))))
  = [String "a" (String Js.CR ""); "b"].
Proof. reflexivity. Qed.

Example split_ws_ex : Js.split_ws "a  b " = ["a"; "b"; ""].
Proof. reflexivity. Qed.

Example basename_ex : Js.basename "/home/u/.ssh/id_work//" = "id_work".
Proof. reflexivity. Qed.

Example trim_ex : Js.trim "    IdentityFile  x  " = "IdentityFile  x".
Proof. reflexivity. Qed.

Example host_line_ex :
  is_host_line (Js.trim "  HOST github.com  # mine") = true
  ∧ second_token (Js.trim "  HOST github.com  # mine") = Some "github.com".
Proof. split; reflexivity. Qed.

(** ** Recognisers *)

Lemma trimEnd_cons_nonws c r :
  Js.is_ws c = false → Js.trimEnd (String c r) = String c (Js.trimEnd r).
Proof.
  intros Hc. simpl. destruct (Js.trimEnd r); [rewrite Hc|]; reflexivity.
Qed.

(** A [Host] line is never an [IdentityFile] line: the keywords differ in
    their first letter. *)
Lemma host_line_not_identityfile t :
  is_host_line t = true → is_identityfile_line t = false.
Proof.
  unfold is_host_line, is_identityfile_line.
  destruct t as [|c r]; simpl; [discriminate|].
  destruct (Js.lower_char c) as [[] ? ? ? ? ? ? ?]; simpl;
    [discriminate|reflexivity].
Qed.

Lemma identityfile_not_host_line t :
  is_identityfile_line t = true → is_host_line t = false.
Proof.
  intros Hi. destruct (is_host_line t) eqn:Hh; [|reflexivity].
  apply host_line_not_identityfile in Hh. congruence.
Qed.

Lemma trim_identity_line k :
  ∃ r, Js.trim (identity_line k) = "IdentityFile" +:+ r.
Proof.
  exists (Js.trimEnd (String " " k)). unfold Js.trim.
  replace (Js.trimStart (identity_line k)) with ("IdentityFile " +:+ k)
    by reflexivity.
  lazy [String.append].
  repeat (rewrite trimEnd_cons_nonws by reflexivity). reflexivity.
Qed.

Lemma identity_line_is_identityfile k :
  is_identityfile_line (Js.trim (identity_line k)) = true.
Proof. destruct (trim_identity_line k) as [r ->]. reflexivity. Qed.

Lemma identity_line_not_host k :
  is_host_line (Js.trim (identity_line k)) = false.
Proof. apply identityfile_not_host_line, identity_line_is_identityfile. Qed.

Lemma next_scope_not_host b l :
  is_host_line (Js.trim l) = false → next_scope b l = b.
Proof. unfold next_scope. intros ->. reflexivity. Qed.

Lemma next_scope_identityfile b l :
  is_identityfile_line (Js.trim l) = true → next_scope b l = b.
Proof. intros H. apply next_scope_not_host, identityfile_not_host_line, H. Qed.

(** ** The search loop shared by [isActiveIdentity] and
       [setActiveGitHubIdentity] *)

Lemma setActive_loop_cons b i l r :
  setActive_loop b i (l :: r) =
  if next_scope b l && is_identityfile_line (Js.trim l) then Some i
  else setActive_loop (next_scope b l) (S i) r.
Proof. reflexivity. Qed.

Lemma isActive_loop_cons kf b l r :
  isActive_loop kf b (l :: r) =
  if next_scope b l && is_identityfile_line (Js.trim l)
  then bool_decide (second_token (Js.trim l) = kf)
  else isActive_loop kf (next_scope b l) r.
Proof. reflexivity. Qed.

Lemma setActive_loop_shift b n lines :
  setActive_loop b n lines = (λ i, n + i) <$> setActive_loop b 0 lines.
Proof.
  revert b n. induction lines as [|l r IH]; intros b n; [reflexivity|].
  rewrite !setActive_loop_cons.
  destruct (next_scope b l && is_identityfile_line (Js.trim l)).
  - simpl. f_equal. lia.
  - rewrite (IH _ (S n)), (IH _ 1).
    destruct (setActive_loop (next_scope b l) 0 r); simpl; [f_equal; lia|done].
Qed.

(** [isActiveIdentity] compares against the line at which
    [setActiveGitHubIdentity] would stop. *)
Lemma isActive_loop_target kf b lines :
  isActive_loop kf b lines =
  match setActive_loop b 0 lines with
  | Some i =>
      match lines !! i with
      | Some l => bool_decide (second_token (Js.trim l) = kf)
      | None => false
      end
  | None => false
  end.
Proof.
  revert b. induction lines as [|l r IH]; intros b; [reflexivity|].
  rewrite isActive_loop_cons, setActive_loop_cons.
  destruct (next_scope b l && is_identityfile_line (Js.trim l)); [reflexivity|].
  rewrite IH, (setActive_loop_shift _ 1).
  destruct (setActive_loop (next_scope b l) 0 r); reflexivity.
Qed.

Lemma target_at_0 b l r :
  target_at b (l :: r) 0 = next_scope b l && is_identityfile_line (Js.trim l).
Proof. reflexivity. Qed.

Lemma target_at_S b l r i :
  target_at b (l :: r) (S i) = target_at (next_scope b l) r i.
Proof. reflexivity. Qed.

Lemma setActive_loop_Some b lines i :
  setActive_loop b 0 lines = Some i ↔
  target_at b lines i = true ∧ ∀ j, j < i → target_at b lines j = false.
Proof.
  revert b i. induction lines as [|l r IH]; intros b i.
  - simpl. split; [discriminate|]. intros [H _]. discriminate.
  - rewrite setActive_loop_cons.
    destruct (next_scope b l && is_identityfile_line (Js.trim l)) eqn:Ht.
    + split.
      * intros [= <-]. rewrite target_at_0. split; [done|lia].
      * intros [Hi Hlt]. destruct i as [|i]; [done|].
        specialize (Hlt 0 ltac:(lia)). rewrite target_at_0 in Hlt. congruence.
    + rewrite (setActive_loop_shift _ 1).
      destruct i as [|i].
      * rewrite target_at_0. split; [|intros [? _]; congruence].
        destruct (setActive_loop _ 0 r); simpl; discriminate.
      * rewrite target_at_S. specialize (IH (next_scope b l) i).
        destruct (setActive_loop (next_scope b l) 0 r) as [m|]; simpl.
        -- split.
           ++ intros [= Hmi]. subst m. destruct (proj1 IH eq_refl) as [Hm1 Hm2].
              split; [done|]. intros [|j] Hj; [by rewrite target_at_0|].
              rewrite target_at_S. apply Hm2. lia.
           ++ intros [Hi Hlt].
              assert (Some m = Some i) as [= ->]; [|done].
              apply IH. split; [done|]. intros j Hj.
              specialize (Hlt (S j) ltac:(lia)). by rewrite target_at_S in Hlt.
        -- split; [discriminate|]. intros [Hi Hlt].
           assert (None = Some i) as [=]. apply IH. split; [done|].
           intros j Hj. specialize (Hlt (S j) ltac:(lia)).
           by rewrite target_at_S in Hlt.
Qed.

Lemma setActive_loop_None b lines :
  setActive_loop b 0 lines = None ↔ ∀ i, target_at b lines i = false.
Proof.
  revert b. induction lines as [|l r IH]; intros b.
  - simpl. split; [|done]. intros _ i. unfold target_at. simpl.  reflexivity.
  - rewrite setActive_loop_cons.
    destruct (next_scope b l && is_identityfile_line (Js.trim l)) eqn:Ht.
    + split; [discriminate|]. intros H. specialize (H 0).
      rewrite target_at_0 in H. congruence.
    + rewrite (setActive_loop_shift _ 1). specialize (IH (next_scope b l)).
      destruct (setActive_loop (next_scope b l) 0 r); simpl.
      * split; [discriminate|]. intros H.
        assert (Some n = None) as [=]. apply IH. intros i.
        specialize (H (S i)). by rewrite target_at_S in H.
      * split; [|done]. intros _ [|i]; [by rewrite target_at_0|].
        rewrite target_at_S. by apply IH.
Qed.

(** ** The loop flag and the declarative host blocks agree *)

Lemma github_scoped_nil i : ¬ github_scoped [] i.
Proof. intros (h & hl & _ & Hh & _). by rewrite lookup_nil in Hh. Qed.

Lemma github_scoped_cons_0 l r :
  github_scoped (l :: r) 0 ↔ is_github_host_line l = true.
Proof.
  split.
  - intros (h & hl & Hle & Hh & Hg & _).
    assert (h = 0) as -> by lia. simpl in Hh. congruence.
  - intros Hg. exists 0, l. repeat split; [done..|]. intros j x Hj. lia.
Qed.

Lemma github_scoped_cons_S l r i :
  github_scoped (l :: r) (S i) ↔
  github_scoped r i ∨
  (is_github_host_line l = true ∧
   ∀ j x, j ≤ i → r !! j = Some x → is_host_line (Js.trim x) = false).
Proof.
  split.
  - intros (h & hl & Hle & Hh & Hg & Hno). destruct h as [|h].
    + right. simpl in Hh. injection Hh as ->. split; [done|].
      intros j x Hj Hx. apply (Hno (S j) x); [lia|done].
    + left. exists h, hl. repeat split; [lia|done..|].
      intros j x Hj Hx. apply (Hno (S j) x); [lia|done].
  - intros [(h & hl & Hle & Hh & Hg & Hno)|[Hg Hno]].
    + exists (S h), hl. repeat split; [lia|done..|].
      intros [|j] x Hj Hx; [lia|]. apply (Hno j x); [lia|done].
    + exists 0, l. repeat split; [lia|done..|].
      intros [|j] x Hj Hx; [lia|]. apply (Hno j x); [lia|done].
Qed.

Lemma is_github_host_line_host l :
  is_github_host_line l = true → is_host_line (Js.trim l) = true.
Proof. unfold is_github_host_line. by intros [? ?]%andb_true_iff. Qed.

Lemma next_scope_host b l :
  is_host_line (Js.trim l) = true → next_scope b l = is_github_host_line l.
Proof. unfold next_scope, is_github_host_line. by intros ->. Qed.

Lemma scope_at_spec b lines i :
  scope_at b lines i = true ↔
  i < length lines ∧
  ((b = true ∧
    ∀ j x, j ≤ i → lines !! j = Some x → is_host_line (Js.trim x) = false)
   ∨ github_scoped lines i).
Proof.
  revert b i. induction lines as [|l r IH]; intros b i.
  - simpl. split; [discriminate|]. intros [? _]. lia.
  - destruct i as [|i]; simpl scope_at.
    + rewrite github_scoped_cons_0.
      destruct (is_host_line (Js.trim l)) eqn:Hh.
      * rewrite (next_scope_host _ _ Hh). split.
        -- intros Hg. split; [simpl; lia|]. by right.
        -- intros [_ [[_ Hno]|Hg]]; [|done].
           specialize (Hno 0 l ltac:(lia) eq_refl). congruence.
      * rewrite (next_scope_not_host _ _ Hh). split.
        -- intros ->. split; [simpl; lia|]. left. split; [done|].
           intros j x Hj Hx. assert (j = 0) as -> by lia.
           simpl in Hx. congruence.
        -- intros [_ [[-> _]|Hg]]; [done|].
           apply is_github_host_line_host in Hg. congruence.
    + rewrite IH, github_scoped_cons_S. simpl length.
      destruct (is_host_line (Js.trim l)) eqn:Hh.
      * rewrite (next_scope_host _ _ Hh). split.
        -- intros [Hlt [[Hg Hno]|Hs]]; (split; [lia|]); right; tauto.
        -- intros [Hlt [[_ Hno]|[Hs|[Hg Hno]]]]; (split; [lia|]).
           ++ specialize (Hno 0 l ltac:(lia) eq_refl). congruence.
           ++ by right.
           ++ left. done.
      * rewrite (next_scope_not_host _ _ Hh). split.
        -- intros [Hlt [[-> Hno]|Hs]]; (split; [lia|]).
           ++ left. split; [done|]. intros [|j] x Hj Hx.
              ** simpl in Hx. congruence.
              ** apply (Hno j x); [lia|done].
           ++ right. by left.
        -- intros [Hlt [[-> Hno]|[Hs|[Hg _]]]]; (split; [lia|]).
           ++ left. split; [done|]. intros j x Hj Hx.
              apply (Hno (S j) x); [lia|done].
           ++ by right.
           ++ apply is_github_host_line_host in Hg. congruence.
Qed.

Lemma target_at_scoped_identity lines i :
  target_at false lines i = true ↔ scoped_identity lines i.
Proof.
  unfold target_at, scoped_identity.
  rewrite andb_true_iff, scope_at_spec. split.
  - intros [[Hlt [[? _]|Hs]] Hl]; [done|]. split; [done|].
    destruct (lines !! i) as [l|]; [|done]. by exists l.
  - intros [Hs (l & Hl & Hi)]. rewrite Hl. split; [|done].
    split; [|by right]. by apply lookup_lt_Some in Hl.
Qed.

Lemma not_target_at_scoped_identity lines i :
  target_at false lines i = false ↔ ¬ scoped_identity lines i.
Proof.
  rewrite <-target_at_scoped_identity. by destruct (target_at false lines i).
Qed.

(** The loop of [setActiveGitHubIdentity] stops at the first [IdentityFile]
    line that lies in a github-scoped block, whichever block that is. *)
Lemma setActive_loop_first lines i :
  setActive_loop false 0 lines = Some i ↔ first_scoped_identity lines i.
Proof.
  rewrite setActive_loop_Some. unfold first_scoped_identity.
  rewrite target_at_scoped_identity.
  split; intros [H1 H2]; (split; [done|]); intros j Hj.
  - apply not_target_at_scoped_identity, H2, Hj.
  - apply not_target_at_scoped_identity, H2, Hj.
Qed.

Lemma setActive_loop_none lines :
  setActive_loop false 0 lines = None ↔ ∀ i, ¬ scoped_identity lines i.
Proof.
  rewrite setActive_loop_None.
  split; intros H i; apply not_target_at_scoped_identity, H.
Qed.

(** ** Where the spec's first block and the loops meet *)

Lemma not_github_host_next_scope l :
  is_github_host_line l = false → next_scope false l = false.
Proof.
  unfold is_github_host_line, next_scope.
  by destruct (is_host_line (Js.trim l)).
Qed.

(** Inside a github-scoped block the loop stops at the block's first
    [IdentityFile] line. *)
Lemma setActive_loop_block_body r : ∀ n j l,
  list_find (λ x, Is_true (is_identityfile_line (Js.trim x))) (block_body r)
    = Some (j, l) →
  setActive_loop true n r = Some (n + j) ∧ r !! j = Some l.
Proof.
  induction r as [|x r IH]; intros n j l; [done|]. cbn [block_body].
  destruct (is_host_line (Js.trim x)) eqn:Hx; [done|].
  rewrite setActive_loop_cons, (next_scope_not_host _ _ Hx).
  cbn [list_find andb]. case_decide as Hid.
  - intros [= <- <-]. apply Is_true_true in Hid. rewrite Hid.
    split; [f_equal; lia|done].
  - apply Is_true_false in Hid. rewrite Hid.
    destruct (list_find _ (block_body r)) as [[j' l']|] eqn:Hfind; [|done].
    intros [= <- <-]. destruct (IH (S n) j' l' eq_refl) as [-> Hl].
    split; [f_equal; lia|done].
Qed.

Lemma setActive_loop_first_block lines : ∀ n h body j l,
  spec_first_github_block n lines = Some (h, body) →
  list_find (λ x, Is_true (is_identityfile_line (Js.trim x))) body = Some (j, l) →
  ∃ m, S (h + j) = n + m ∧ setActive_loop false n lines = Some (n + m)
       ∧ lines !! m = Some l.
Proof.
  induction lines as [|x r IH]; intros n h body j l; [done|].
  cbn [spec_first_github_block]. rewrite setActive_loop_cons.
  destruct (is_github_host_line x) eqn:Hx.
  - apply andb_true_iff in Hx as [Hh Hg].
    rewrite (host_line_not_identityfile _ Hh), andb_false_r.
    unfold next_scope. rewrite Hh, Hg.
    intros [= <- <-] Hfind.
    destruct (setActive_loop_block_body r (S n) j l Hfind) as [-> Hl].
    exists (S j). split; [lia|]. split; [f_equal; lia|done].
  - rewrite (not_github_host_next_scope _ Hx). cbn [andb].
    intros Hblock Hfind.
    destruct (IH (S n) h body j l Hblock Hfind) as (m & Hm & -> & Hl).
    exists (S m). split; [lia|]. split; [f_equal; lia|done].
Qed.

(** When the first github-scoped block has an [IdentityFile] line, its first
    one is where both loops stop: there the spec's wording and the code
    agree. *)
Lemma first_block_identity_is_first_scoped lines i l :
  spec_first_block_identity lines = Some (i, l) →
  first_scoped_identity lines i ∧ lines !! i = Some l.
Proof.
  unfold spec_first_block_identity.
  destruct (spec_first_github_block 0 lines) as [[h body]|] eqn:Hblock; [|done].
  destruct (list_find _ body) as [[j l']|] eqn:Hfind; [|done].
  intros [= <- <-].
  destruct (setActive_loop_first_block lines 0 h body j l' Hblock Hfind)
    as (m & Hm & Hloop & Hl).
  simpl in Hm. subst m. split; [by apply setActive_loop_first|done].
Qed.

Lemma spec_setActive_lines_agrees k lines i l :
  spec_first_block_identity lines = Some (i, l) →
  setActive_lines k lines = spec_setActive_lines k lines.
Proof.
  intros Hspec. unfold spec_setActive_lines. rewrite Hspec.
  apply first_block_identity_is_first_scoped in Hspec as [Hfirst _].
  apply setActive_loop_first in Hfirst. unfold setActive_lines. by rewrite Hfirst.
Qed.

(** ** [setActiveGitHubIdentity] on an existing file *)

Lemma setActive_lines_cases k lines :
  (∃ i, first_scoped_identity lines i ∧
        setActive_lines k lines = <[i := identity_line k]> lines)
  ∨ ((∀ i, ¬ scoped_identity lines i) ∧
     setActive_lines k lines = lines ++ ["Host github.com"; identity_line k]).
Proof.
  unfold setActive_lines.
  destruct (setActive_loop false 0 lines) as [i|] eqn:Hloop.
  - left. exists i. split; [by apply setActive_loop_first|done].
  - right. split; [by apply setActive_loop_none|done].
Qed.

(** C1, as the code has it: on every existing document [setActive k]
    rewrites the first [IdentityFile] line that lies in a github-scoped
    block -- whichever github-scoped block that is -- as the 4-space-indented
    [IdentityFile k]; it appends the two-line block [Host github.com] /
    [IdentityFile k] exactly when no github-scoped block of the document
    holds an [IdentityFile] line. *)
Theorem setActive_rewrites_first_scoped_identity (content k : string) :
  (∃ i, first_scoped_identity (Js.split_lines content) i ∧
        setActiveGitHubIdentity k (Some content) =
        Some (Js.join_lines
                (<[i := "    IdentityFile " +:+ k]> (Js.split_lines content))))
  ∨ ((∀ i, ¬ scoped_identity (Js.split_lines content) i) ∧
     setActiveGitHubIdentity k (Some content) =
     Some (Js.join_lines
             (Js.split_lines content ++
              ["Host github.com"; "    IdentityFile " +:+ k]))).
Proof.
  unfold setActiveGitHubIdentity. generalize (Js.split_lines content) as lines.
  intros lines. destruct (setActive_lines_cases k lines) as [(i & Hi & ->)|[Hno ->]].
  - left. by exists i.
  - by right.
Qed.

(** C1 as the spec words it fails: when the first github-scoped block has no
    [IdentityFile] line and a later one has, the code rewrites the later
    block's line instead of appending a new block. *)
Lemma setActive_first_block_counterexample :
  spec_first_block_identity (Js.split_lines (doc_of two_block_lines)) = None
  ∧ setActiveGitHubIdentity "/b" (Some (doc_of two_block_lines)) =
    Some (doc_of ["Host github.com"; "    User git"; "Host github.com";
                  "    IdentityFile /b"])
  ∧ setActiveGitHubIdentity "/b" (Some (doc_of two_block_lines)) ≠
    Some (doc_of (spec_setActive_lines "/b"
                    (Js.split_lines (doc_of two_block_lines)))).
Proof. split; [|split]; [reflexivity..|discriminate]. Qed.

(** ** [isActiveIdentity] *)

(** C4, as the code has it: [isActive] is true exactly when the first
    [IdentityFile] line that lies in a github-scoped block -- whichever block
    that is -- exists and its argument is the record's [keyFile], compared as
    they are; in particular it is false when the file is missing, when there
    is no github-scoped block and when no github-scoped block holds an
    [IdentityFile] line. *)
Theorem isActive_first_scoped_identity (c : SSHConnection) (content : string) :
  isActiveIdentity c None = false
  ∧ (isActiveIdentity c (Some content) = true ↔
     ∃ i l, first_scoped_identity (Js.split_lines content) i ∧
            Js.split_lines content !! i = Some l ∧
            second_token (Js.trim l) = keyFile c).
Proof.
  split; [reflexivity|].
  unfold isActiveIdentity, isActive_lines.
  generalize (Js.split_lines content) as lines. intros lines.
  rewrite isActive_loop_target.
  destruct (setActive_loop false 0 lines) as [i|] eqn:Hloop.
  - apply setActive_loop_first in Hloop as Hfirst.
    destruct (lines !! i) as [l|] eqn:Hl.
    + rewrite bool_decide_eq_true. split.
      * intros Heq. by exists i, l.
      * intros (j & l' & Hj & Hl' & Heq).
        apply setActive_loop_first in Hj. rewrite Hloop in Hj.
        injection Hj as <-. congruence.
    + destruct Hfirst as [[_ (l & Hl' & _)] _]. congruence.
  - split; [discriminate|]. intros (j & l' & Hj & _).
    apply setActive_loop_first in Hj. congruence.
Qed.

(** C4 as the spec words it fails: the first github-scoped block has no
    [IdentityFile] line, so the spec's [isActive] is false, but the code
    answers from the second block. *)
Lemma isActive_first_block_counterexample :
  spec_isActive "/a" (Some (doc_of two_block_lines)) = false
  ∧ isActiveIdentity (discovered "/a") (Some (doc_of two_block_lines)) = true.
Proof. split; reflexivity. Qed.

(** ** The missing file *)

(** C2, as the code has it: without the file, [scan] returns no record,
    [isActive] is false, and [setActive] returns at its guard without
    writing; no operation of the engine creates the file. *)
Theorem missing_file_stays_missing :
  parseGitHubSSHIdentities None = []
  ∧ (∀ c, isActiveIdentity c None = false)
  ∧ (∀ k, setActiveGitHubIdentity k None = None)
  ∧ ∀ op, (run op None).2 = None.
Proof. repeat split. by intros []. Qed.

(** C2 as the spec words it fails: [setActive] on a missing file writes
    nothing. *)
Lemma setActive_missing_file_counterexample :
  ¬ ∃ content,
      setActiveGitHubIdentity "/home/u/.ssh/id_work" None = Some content.
Proof. intros [content H]. discriminate H. Qed.

(** ** The empty file *)

(** C5, as the code has it: the empty file is read as one empty line, which
    [setActive] keeps, so the document written starts with a line break;
    [scan] on it returns the one record of the new block. *)
Theorem setActive_on_empty_document :
  setActiveGitHubIdentity "/home/u/.ssh/id_work" (Some "") =
    Some (String Js.LF "Host github.com" +:+
          String Js.LF "    IdentityFile /home/u/.ssh/id_work")
  ∧ ∃ r, parseGitHubSSHIdentities
           (setActiveGitHubIdentity "/home/u/.ssh/id_work" (Some "")) = [r]
         ∧ keyFile r = Some "/home/u/.ssh/id_work" ∧ name r = "id_work".
Proof. split; [reflexivity|]. eexists. repeat split. Qed.

(** C5 as the spec words it fails: the document written is not the bare
    two-line block. *)
Lemma setActive_on_empty_document_counterexample :
  setActiveGitHubIdentity "/home/u/.ssh/id_work" (Some "") ≠
  Some ("Host github.com" +:+
        String Js.LF "    IdentityFile /home/u/.ssh/id_work").
Proof. discriminate. Qed.

(** ** The merge of [getChildren] *)

Section Merge.

Implicit Types (all extra disc : list SSHConnection) (c e : SSHConnection).

Lemma merge_step_known all c :
  keyFile c ∈ keyFile <$> all → merge_step all c = all.
Proof.
  intros (e & Heq & He)%list_elem_of_fmap. unfold merge_step.
  destruct (List.find _ all) eqn:Hf; [done|].
  apply list_elem_of_In in He. apply (find_none _ _ Hf e) in He as Hne.
  rewrite bool_decide_eq_false in Hne. congruence.
Qed.

Lemma merge_step_fresh all c :
  keyFile c ∉ keyFile <$> all → merge_step all c = all ++ [c].
Proof.
  intros Hnot. unfold merge_step.
  destruct (List.find _ all) as [e|] eqn:Hf; [|done].
  apply find_some in Hf as [He Heq]. rewrite bool_decide_eq_true in Heq.
  destruct Hnot. rewrite <-Heq. apply list_elem_of_fmap_2.
  by apply list_elem_of_In.
Qed.

(** The loop keeps what it has and appends, in scan order, the first
    record of every key it does not have yet. *)
Lemma merge_fold disc : ∀ all,
  ∃ extra,
    fold_left merge_step disc all = all ++ extra
    ∧ sublist extra disc
    ∧ (∀ e, e ∈ extra → keyFile e ∉ keyFile <$> all)
    ∧ NoDup (keyFile <$> extra)
    ∧ (∀ d, d ∈ disc → keyFile d ∈ keyFile <$> (all ++ extra)).
Proof.
  induction disc as [|c disc IH]; intros all.
  - exists []. rewrite app_nil_r. repeat split; try done.
    + intros e He. by apply elem_of_nil in He.
    + constructor.
    + intros d Hd. by apply elem_of_nil in Hd.
  - simpl fold_left.
    destruct (decide (keyFile c ∈ keyFile <$> all)) as [Hin|Hnot].
    + rewrite (merge_step_known _ _ Hin).
      destruct (IH all) as (extra & -> & Hsub & Hfresh & Hnd & Hcov).
      exists extra. repeat split; try done.
      * by apply sublist_cons.
      * intros d [->|Hd]%elem_of_cons; [|by apply Hcov].
        rewrite fmap_app. apply elem_of_app. by left.
    + rewrite (merge_step_fresh _ _ Hnot).
      destruct (IH (all ++ [c])) as (extra & -> & Hsub & Hfresh & Hnd & Hcov).
      exists (c :: extra). rewrite <-app_assoc. simpl.
      repeat split; try done.
      * by apply sublist_skip.
      * intros e [->|He]%elem_of_cons; [done|].
        intros Hin. apply (Hfresh e He). rewrite fmap_app.
        apply elem_of_app. by left.
      * apply NoDup_cons. split; [|done].
        intros (e & Heq & He)%list_elem_of_fmap.
        apply (Hfresh e He). rewrite fmap_app, <-Heq.
        apply elem_of_app. right. simpl. by apply list_elem_of_singleton.
      * intros d [->|Hd]%elem_of_cons.
        -- rewrite fmap_app. apply elem_of_app. right.
           rewrite fmap_cons. apply elem_of_cons. by left.
        -- specialize (Hcov d Hd). by rewrite <-app_assoc in Hcov.
Qed.

Lemma NoDup_keys_unique all e1 e2 :
  NoDup (keyFile <$> all) → e1 ∈ all → e2 ∈ all →
  keyFile e1 = keyFile e2 → e1 = e2.
Proof.
  induction all as [|x all IH]; intros Hnd H1 H2 Heq.
  - by apply elem_of_nil in H1.
  - rewrite fmap_cons in Hnd. apply NoDup_cons in Hnd as [Hx Hnd].
    apply elem_of_cons in H1 as [->|H1]; apply elem_of_cons in H2 as [->|H2].
    + done.
    + destruct Hx. rewrite Heq. by apply list_elem_of_fmap_2.
    + destruct Hx. rewrite <-Heq. by apply list_elem_of_fmap_2.
    + by apply IH.
Qed.

End Merge.

Lemma filter_ext_elem {A} (P Q : A → Prop)
    `{!∀ x, Decision (P x)} `{!∀ x, Decision (Q x)} (l : list A) :
  (∀ x, x ∈ l → P x ↔ Q x) → filter P l = filter Q l.
Proof.
  induction l as [|x l IH]; intros Hext; [done|].
  rewrite !filter_cons.
  destruct (decide (P x)) as [HP|HP], (decide (Q x)) as [HQ|HQ].
  - f_equal. apply IH. intros y Hy. apply Hext, elem_of_cons. by right.
  - destruct HQ. apply Hext; [apply elem_of_cons; by left|done].
  - destruct HP. apply Hext; [apply elem_of_cons; by left|done].
  - apply IH. intros y Hy. apply Hext, elem_of_cons. by right.
Qed.

(** One more discovered record at the end of the scan is kept exactly when
    its [keyFile] is new. *)
Lemma discovered_only_snoc connections disc d :
  discovered_only connections (disc ++ [d]) =
  discovered_only connections disc ++
  (if decide ((keyFile d ∉ keyFile <$> connections)
              ∧ (keyFile d ∉ keyFile <$> disc))
   then [d] else []).
Proof.
  unfold discovered_only. rewrite imap_app, filter_app, fmap_app. f_equal.
  - f_equal. apply filter_ext_elem. intros [i x] Hin.
    apply elem_of_lookup_imap in Hin as (j & y & [= -> ->] & Hj). simpl.
    apply lookup_lt_Some in Hj. by rewrite take_app_le by lia.
  - simpl. rewrite filter_cons, filter_nil. simpl.
    rewrite Nat.add_0_r, take_app_length.
    by destruct (decide _).
Qed.

(** The loop of [getChildren] appends exactly the discovered-only
    records. *)
Lemma merge_fold_discovered_only disc : ∀ all,
  fold_left merge_step disc all = all ++ discovered_only all disc.
Proof.
  induction disc as [|d disc IH] using rev_ind; intros all.
  - by rewrite app_nil_r.
  - rewrite fold_left_app, discovered_only_snoc. simpl. rewrite IH.
    destruct (merge_fold disc all) as (extra & Hfold & Hsub & _ & _ & Hcov).
    rewrite IH in Hfold. apply app_inv_head in Hfold. rewrite Hfold in *.
    assert (keyFile d ∈ keyFile <$> all ++ extra ↔
            keyFile d ∈ keyFile <$> all ∨ keyFile d ∈ keyFile <$> disc) as Hkeys.
    { rewrite fmap_app, elem_of_app. split; (intros [?|Hd]; [by left|]).
      - right. apply list_elem_of_fmap in Hd as (e & -> & He).
        apply list_elem_of_fmap_2. by apply (elem_of_sublist _ _ _ He Hsub).
      - apply list_elem_of_fmap in Hd as (e & -> & He).
        specialize (Hcov e He). by rewrite fmap_app, elem_of_app in Hcov. }
    destruct (decide _) as [[H1 H2]|Hn].
    + rewrite merge_step_fresh; [by rewrite app_assoc|]. rewrite Hkeys. tauto.
    + rewrite merge_step_known; [by rewrite app_nil_r|].
      apply Hkeys. apply not_and_l in Hn as [Hn|Hn].
      * left. by apply dec_stable.
      * right. by apply dec_stable.
Qed.

Lemma discovered_only_fresh connections disc e :
  e ∈ discovered_only connections disc → keyFile e ∉ keyFile <$> connections.
Proof.
  unfold discovered_only. intros ([i x] & -> & Hin)%list_elem_of_fmap.
  by apply list_elem_of_filter in Hin as [[? _] _].
Qed.

Lemma discovered_only_NoDup connections disc :
  NoDup (keyFile <$> discovered_only connections disc).
Proof.
  destruct (merge_fold disc connections) as (extra & Hfold & _ & _ & Hnd & _).
  rewrite merge_fold_discovered_only in Hfold.
  apply app_inv_head in Hfold. by rewrite Hfold.
Qed.

(** C3, as the code has it, for every managed list and every file: the
    merged view is the managed records in their order followed by the
    discovered-only records in scan order -- the discovered records whose
    [keyFile] occurs neither among the managed records nor earlier in the
    scan; a record of the view whose [keyFile] is that of a managed record
    is a managed record, and the managed record itself when the managed list
    has no two records of that [keyFile]; and the view has two records of
    the same [keyFile] exactly when the managed list has. *)
Theorem getChildren_dedup (connections : list SSHConnection) (fs : config_file) :
  getChildren connections fs =
    connections ++ discovered_only connections (parseGitHubSSHIdentities fs)
  ∧ (∀ m r, m ∈ connections → r ∈ getChildren connections fs →
            keyFile r = keyFile m →
            r ∈ connections ∧ (NoDup (keyFile <$> connections) → r = m))
  ∧ (NoDup (keyFile <$> getChildren connections fs) ↔
     NoDup (keyFile <$> connections)).
Proof.
  unfold getChildren. rewrite merge_fold_discovered_only.
  set (extra := discovered_only connections (parseGitHubSSHIdentities fs)).
  split; [done|].
  assert (∀ m r, m ∈ connections → r ∈ connections ++ extra →
                 keyFile r = keyFile m → r ∈ connections) as Hwins.
  { intros m r Hm [Hr|Hr]%elem_of_app Heq; [done|].
    apply discovered_only_fresh in Hr. destruct Hr. rewrite Heq.
    by apply list_elem_of_fmap_2. }
  split.
  - intros m r Hm Hr Heq. split; [by apply (Hwins m)|].
    intros Hnd. apply (NoDup_keys_unique connections); [done| |done..].
    by apply (Hwins m).
  - rewrite fmap_app, NoDup_app. split; [by intros [? _]|].
    intros Hnd. split; [done|]. split; [|apply discovered_only_NoDup].
    intros kf Hkf (e & -> & He)%list_elem_of_fmap.
    by apply discovered_only_fresh in He.
Qed.

(** The key [/a] is found twice by the scan and shown once, at the place of
    its first record. *)
Example getChildren_repeated_key :
  getChildren [work_record] (Some (doc_of repeated_key_lines)) =
  [work_record; discovered "/a"; discovered "/b"].
Proof. reflexivity. Qed.

(** C3 as the spec words it fails: two managed records of the same
    [keyFile] are both copied into the view. *)
Lemma getChildren_dedup_counterexample :
  ¬ NoDup (keyFile <$> getChildren same_key_records None).
Proof.
  intros Hnd. simpl in Hnd.
  apply NoDup_cons in Hnd as [Hnot _]. apply Hnot, elem_of_cons. by left.
Qed.

(** ** Tokens of a trimmed line *)

Lemma trimEnd_ends_nonws s : Js.trimEnd s = "" ∨ ends_nonws (Js.trimEnd s) = true.
Proof.
  induction s as [|c r IH]; [by left|]. simpl.
  destruct (Js.trimEnd r) as [|c' r'] eqn:Hr.
  - destruct (Js.is_ws c) eqn:Hc; [by left|]. right. simpl. by rewrite Hc.
  - right. destruct IH as [|IH]; [done|]. exact IH.
Qed.

Lemma ends_nonws_cons c r :
  r ≠ "" → ends_nonws (String c r) = ends_nonws r.
Proof. by destruct r. Qed.

(** On a string that ends outside white space, a split on white space has
    no empty piece after the first one; started inside a separator it has
    no empty piece at all. *)
Lemma split_ws_from_nonempty s :
  ends_nonws s = true →
  Forall (λ t, t ≠ "") (Js.split_ws_from true s)
  ∧ Forall (λ t, t ≠ "") (tail (Js.split_ws_from false s)).
Proof.
  induction s as [|c r IH]; [discriminate|]. intros Hend.
  destruct r as [|c' r'].
  - simpl in Hend. apply negb_true_iff in Hend. simpl. rewrite Hend. simpl.
    split; [|constructor]. by constructor.
  - rewrite ends_nonws_cons in Hend by done.
    destruct (IH Hend) as [IHt IHf].
    change (Js.split_ws_from true (String c (String c' r'))) with
      (if Js.is_ws c then Js.split_ws_from true (String c' r')
       else Js.cons_first c (Js.split_ws_from false (String c' r'))).
    change (Js.split_ws_from false (String c (String c' r'))) with
      (if Js.is_ws c then "" :: Js.split_ws_from true (String c' r')
       else Js.cons_first c (Js.split_ws_from false (String c' r'))).
    destruct (Js.is_ws c); [by split|].
    destruct (Js.split_ws_from false (String c' r')) as [|t ts]; simpl.
    + split; [|constructor]. by constructor.
    + split; [|done]. by constructor.
Qed.

Lemma second_token_nonempty line a :
  second_token (Js.trim line) = Some a → a ≠ "".
Proof.
  unfold second_token, Js.trim, Js.split_ws.
  destruct (trimEnd_ends_nonws (Js.trimStart line)) as [->|Hend]; [done|].
  apply split_ws_from_nonempty in Hend as [_ Hf].
  destruct (Js.split_ws_from false _) as [|t ts]; [done|]. simpl in *.
  intros Ha. destruct ts as [|t' ts']; [done|]. injection Ha as ->.
  by apply Forall_cons in Hf as [? _].
Qed.

(** ** The scan loop of [parseGitHubSSHIdentities] *)

Lemma flush_acc acc ch idf : flush acc ch idf = acc ++ flush [] ch idf.
Proof.
  unfold flush. destruct idf as [f|]; [|by rewrite app_nil_r].
  destruct (is_github ch && negb (String.eqb f "")); [done|by rewrite app_nil_r].
Qed.

Lemma flush_github acc a :
  a ≠ "" → flush acc (Some "github.com") (Some a) = acc ++ [discovered a].
Proof.
  intros Ha. unfold flush. apply String.eqb_neq in Ha. by rewrite Ha.
Qed.

Lemma parse_loop_acc lines : ∀ acc ch idf,
  parse_loop acc ch idf lines = acc ++ parse_loop [] ch idf lines.
Proof.
  induction lines as [|l r IH]; intros acc ch idf; simpl.
  - apply flush_acc.
  - destruct (is_host_line (Js.trim l)).
    + rewrite IH, (IH (flush [] ch idf)), flush_acc. by rewrite app_assoc.
    + destruct (is_identityfile_line (Js.trim l) && is_github ch); apply IH.
Qed.

(** A [Host] line closes what came before it. *)
Lemma parse_loop_app_host pre h rest : ∀ acc ch idf,
  is_host_line (Js.trim h) = true →
  parse_loop acc ch idf (pre ++ h :: rest) =
  parse_loop acc ch idf pre ++ parse_loop [] (second_token (Js.trim h)) None rest.
Proof.
  induction pre as [|l r IH]; intros acc ch idf Hh; simpl.
  - rewrite Hh. apply parse_loop_acc.
  - destruct (is_host_line (Js.trim l)); [by apply IH|].
    destruct (is_identityfile_line (Js.trim l) && is_github ch); by apply IH.
Qed.

Lemma parse_lines_host h rest :
  is_host_line (Js.trim h) = true →
  parse_lines (h :: rest) = parse_loop [] (second_token (Js.trim h)) None rest.
Proof. intros Hh. unfold parse_lines. simpl. by rewrite Hh. Qed.

(** Lines that are no [Host] lines only move the tracked value. *)
Lemma parse_loop_body body : ∀ ch idf,
  Forall (λ x, is_host_line (Js.trim x) = false) body →
  ∃ idf', ∀ acc rest,
    parse_loop acc ch idf (body ++ rest) = parse_loop acc ch idf' rest.
Proof.
  induction body as [|l r IH]; intros ch idf Hno.
  - by exists idf.
  - apply Forall_cons in Hno as [Hl Hr]. simpl. rewrite Hl.
    destruct (is_identityfile_line (Js.trim l) && is_github ch).
    + destruct (IH ch (second_token (Js.trim l)) Hr) as [idf' H]. by exists idf'.
    + destruct (IH ch idf Hr) as [idf' H]. by exists idf'.
Qed.

(** Lines that are neither [Host] nor [IdentityFile] lines change nothing. *)
Lemma parse_loop_inert body : ∀ acc ch idf rest,
  Forall (λ x, is_host_line (Js.trim x) = false) body →
  Forall (λ x, is_identityfile_line (Js.trim x) = false) body →
  parse_loop acc ch idf (body ++ rest) = parse_loop acc ch idf rest.
Proof.
  induction body as [|l r IH]; intros acc ch idf rest Hh Hi; [done|].
  apply Forall_cons in Hh as [Hl Hr]. apply Forall_cons in Hi as [Hil Hir].
  simpl. rewrite Hl, Hil. simpl. by apply IH.
Qed.

(** Outside a github-scoped block, lines that are no [Host] lines change
    nothing, [IdentityFile] lines included. *)
Lemma parse_loop_unscoped body : ∀ acc ch idf rest,
  is_github ch = false →
  Forall (λ x, is_host_line (Js.trim x) = false) body →
  parse_loop acc ch idf (body ++ rest) = parse_loop acc ch idf rest.
Proof.
  induction body as [|l r IH]; intros acc ch idf rest Hch Hh; [done|].
  apply Forall_cons in Hh as [Hl Hr].
  simpl. rewrite Hl, Hch, andb_false_r. by apply IH.
Qed.

(** One github-scoped block: whatever precedes the last [IdentityFile] line
    [l] inside the block, the block contributes the record of [l]. *)
Lemma parse_block pre h b1 l b2 post a :
  is_github_host_line h = true →
  Forall (λ x, is_host_line (Js.trim x) = false) (b1 ++ l :: b2) →
  is_identityfile_line (Js.trim l) = true →
  second_token (Js.trim l) = Some a →
  Forall (λ x, is_identityfile_line (Js.trim x) = false) b2 →
  (post = [] ∨ ∃ h' post', post = h' :: post' ∧ is_host_line (Js.trim h') = true) →
  parse_lines (pre ++ h :: b1 ++ l :: b2 ++ post) =
  parse_lines pre ++ [discovered a] ++ parse_lines post.
Proof.
  intros Hh Hbody Hl Ha Hb2 Hpost.
  apply andb_true_iff in Hh as [Hhost Hgh].
  unfold is_github in Hgh. apply bool_decide_eq_true in Hgh.
  apply Forall_app in Hbody as [Hb1 Hlb2].
  apply Forall_cons in Hlb2 as [Hlh Hb2h].
  unfold parse_lines at 1. rewrite parse_loop_app_host by done.
  fold (parse_lines pre). f_equal. rewrite Hgh.
  destruct (parse_loop_body b1 (Some "github.com") None Hb1) as [idf' ->].
  cbn [parse_loop]. rewrite Hlh, Hl.
  change (is_github (Some "github.com")) with true. cbn [andb].
  rewrite parse_loop_inert by done. rewrite Ha.
  apply second_token_nonempty in Ha.
  destruct Hpost as [->|(h' & post' & -> & Hh')].
  - cbn [parse_loop]. by rewrite (flush_github [] a Ha).
  - cbn [parse_loop]. rewrite Hh'. rewrite (flush_github [] a Ha).
    rewrite parse_loop_acc. by rewrite parse_lines_host.
Qed.

(** The end of the document closes the last block as a [Host] line would. *)
Lemma parse_lines_app_host lines h :
  is_host_line (Js.trim h) = true → parse_lines (lines ++ [h]) = parse_lines lines.
Proof.
  intros Hh. unfold parse_lines. rewrite parse_loop_app_host by done.
  simpl. apply app_nil_r.
Qed.

(** C6, for a block whose last [IdentityFile] line carries an argument: a
    github-scoped block ([h], then [b1 ++ l :: b2] up to the next [Host] line
    or the end of the document) whose last [IdentityFile] line is [l], with
    argument [a], contributes exactly one record, [discovered a], between the
    records of the lines before the block and those of the lines after it,
    however many [IdentityFile] lines [b1] holds. *)
Theorem scan_last_identity_wins
    (content : string) (pre : list string) (h : string)
    (b1 : list string) (l : string) (b2 post : list string) (a : string) :
  Js.split_lines content = pre ++ h :: b1 ++ l :: b2 ++ post →
  is_github_host_line h = true →
  Forall (λ x, is_host_line (Js.trim x) = false) (b1 ++ l :: b2) →
  is_identityfile_line (Js.trim l) = true →
  second_token (Js.trim l) = Some a →
  Forall (λ x, is_identityfile_line (Js.trim x) = false) b2 →
  (post = [] ∨ ∃ h' post', post = h' :: post' ∧ is_host_line (Js.trim h') = true) →
  parseGitHubSSHIdentities (Some content) =
  parse_lines pre ++ [discovered a] ++ parse_lines post
  ∧ keyFile (discovered a) = Some a.
Proof.
  intros Hsplit Hh Hbody Hl Ha Hb2 Hpost. split; [|reflexivity].
  unfold parseGitHubSSHIdentities. rewrite Hsplit. by apply parse_block.
Qed.

(** The middle block of three: two [IdentityFile] lines, the second one
    wins. *)
Lemma scan_last_identity_wins_witness :
  parseGitHubSSHIdentities (Some (doc_of three_block_lines)) =
  [discovered "/g1"] ++ [discovered "/b"] ++ [discovered "/g2"]
  ∧ keyFile (discovered "/b") = Some "/b".
Proof.
  apply (scan_last_identity_wins (doc_of three_block_lines)
           ["Host github.com"; "    IdentityFile /g1"]
           "Host github.com"
           ["    IdentityFile /a"; "    User git"]
           "    IdentityFile /b"
           ["    Port 22"]
           ["Host github.com"; "    IdentityFile /g2"] "/b").
  - reflexivity.
  - reflexivity.
  - repeat constructor.
  - reflexivity.
  - reflexivity.
  - repeat constructor.
  - right. eexists _, _. split; reflexivity.
Defined.

(** C6 as the spec words it fails: the document is one github-scoped block
    with three [IdentityFile] lines; the last of them has no argument, the
    tracked value is reset and the block contributes no record at all. *)
Lemma scan_last_identity_counterexample :
  Js.split_lines (doc_of bare_last_lines) = bare_last_lines
  ∧ List.map is_github_host_line bare_last_lines = [true; false; false; false]
  ∧ List.map (λ x, is_host_line (Js.trim x)) bare_last_lines =
    [true; false; false; false]
  ∧ List.map (λ x, is_identityfile_line (Js.trim x)) bare_last_lines =
    [false; true; true; true]
  ∧ parseGitHubSSHIdentities (Some (doc_of bare_last_lines)) = [].
Proof. repeat split. Qed.

(** C9, for a final block whose last [IdentityFile] line carries an
    argument: when the document ends inside a github-scoped block whose last
    [IdentityFile] line is [l], with argument [a], [scan] ends with the
    record [discovered a]; and the end of the document acts like a [Host]
    line: appending one changes nothing. *)
Theorem scan_trailing_block
    (content : string) (pre : list string) (h : string)
    (b1 : list string) (l : string) (b2 : list string) (a : string) :
  Js.split_lines content = pre ++ h :: b1 ++ l :: b2 →
  is_github_host_line h = true →
  Forall (λ x, is_host_line (Js.trim x) = false) (b1 ++ l :: b2) →
  is_identityfile_line (Js.trim l) = true →
  second_token (Js.trim l) = Some a →
  Forall (λ x, is_identityfile_line (Js.trim x) = false) b2 →
  parseGitHubSSHIdentities (Some content) = parse_lines pre ++ [discovered a]
  ∧ ∀ h', is_host_line (Js.trim h') = true →
          parse_lines (Js.split_lines content ++ [h']) =
          parseGitHubSSHIdentities (Some content).
Proof.
  intros Hsplit Hh Hbody Hl Ha Hb2. split.
  - unfold parseGitHubSSHIdentities. rewrite Hsplit.
    rewrite <-(app_nil_r b2).
    rewrite (parse_block pre h b1 l b2 [] a) by (done || by left).
    reflexivity.
  - intros h' Hh'. by apply parse_lines_app_host.
Qed.

(** A document that ends inside its github-scoped block. *)
Lemma scan_trailing_block_witness :
  parseGitHubSSHIdentities (Some (doc_of trailing_block_lines)) =
  [discovered "/home/u/.ssh/id_work"].
Proof.
  refine (proj1 (scan_trailing_block (doc_of trailing_block_lines)
                   ["Host gitlab.com"; "    IdentityFile /g"]
                   "Host github.com" ["    User git"]
                   "    IdentityFile /home/u/.ssh/id_work" [""]
                   "/home/u/.ssh/id_work" _ _ _ _ _ _)).
  - reflexivity.
  - reflexivity.
  - repeat constructor.
  - reflexivity.
  - reflexivity.
  - repeat constructor.
Defined.

(** C9 as the spec words it fails: the final block is github-scoped and
    holds an [IdentityFile] line with an argument, no [Host] line follows,
    but a bare [IdentityFile] line after it resets the tracked value, and
    [scan] returns no record. *)
Lemma scan_trailing_block_counterexample :
  Js.split_lines (doc_of bare_trailing_lines) = bare_trailing_lines
  ∧ List.map is_github_host_line bare_trailing_lines =
    [false; false; true; false; false]
  ∧ List.map (λ x, is_host_line (Js.trim x)) bare_trailing_lines =
    [true; false; true; false; false]
  ∧ List.map (λ x, second_token (Js.trim x)) (drop 3 bare_trailing_lines) =
    [Some "/home/u/.ssh/id_work"; None]
  ∧ parseGitHubSSHIdentities (Some (doc_of bare_trailing_lines)) = [].
Proof. repeat split. Qed.

(** ** Lines above the first [Host] line *)

Lemma isActive_loop_unscoped kf pre rest :
  Forall (λ x, is_host_line (Js.trim x) = false) pre →
  isActive_loop kf false (pre ++ rest) = isActive_loop kf false rest.
Proof.
  induction pre as [|l r IH]; intros Hno; [done|].
  apply Forall_cons in Hno as [Hl Hr].
  rewrite <-app_comm_cons, isActive_loop_cons, (next_scope_not_host _ _ Hl).
  by apply IH.
Qed.

Lemma setActive_loop_unscoped pre rest :
  Forall (λ x, is_host_line (Js.trim x) = false) pre →
  setActive_loop false 0 (pre ++ rest) =
  (λ i, length pre + i) <$> setActive_loop false 0 rest.
Proof.
  induction pre as [|l r IH]; intros Hno.
  - simpl. by destruct (setActive_loop false 0 rest).
  - apply Forall_cons in Hno as [Hl Hr].
    rewrite <-app_comm_cons, setActive_loop_cons, (next_scope_not_host _ _ Hl).
    cbn [andb]. rewrite (setActive_loop_shift _ 1), (IH Hr).
    destruct (setActive_loop false 0 rest); reflexivity.
Qed.

Lemma setActive_lines_unscoped k pre rest :
  Forall (λ x, is_host_line (Js.trim x) = false) pre →
  setActive_lines k (pre ++ rest) = pre ++ setActive_lines k rest.
Proof.
  intros Hno. unfold setActive_lines. rewrite (setActive_loop_unscoped _ _ Hno).
  destruct (setActive_loop false 0 rest) as [i|]; simpl.
  - apply insert_app_r.
  - by rewrite app_assoc.
Qed.

(** C10: the lines [pre] above the first [Host] line, [IdentityFile] lines
    among them, play no part: [scan] and [isActive] give what they give on
    the rest of the document alone, and [setActive] writes [pre] back as it
    is, in front of what it makes of the rest. *)
Theorem lines_before_first_host_are_inert
    (content : string) (pre rest : list string) (c : SSHConnection) (k : string) :
  Js.split_lines content = pre ++ rest →
  Forall (λ x, is_host_line (Js.trim x) = false) pre →
  parseGitHubSSHIdentities (Some content) = parse_lines rest
  ∧ isActiveIdentity c (Some content) = isActive_lines (keyFile c) rest
  ∧ setActiveGitHubIdentity k (Some content) =
    Some (Js.join_lines (pre ++ setActive_lines k rest)).
Proof.
  intros Hsplit Hno.
  unfold parseGitHubSSHIdentities, isActiveIdentity, setActiveGitHubIdentity.
  rewrite Hsplit. split; [|split].
  - unfold parse_lines. by apply parse_loop_unscoped.
  - unfold isActive_lines. by apply isActive_loop_unscoped.
  - by rewrite setActive_lines_unscoped.
Qed.

(** An [IdentityFile] line on the first line of the document. *)
Lemma lines_before_first_host_are_inert_witness :
  parseGitHubSSHIdentities (Some (doc_of leading_identity_lines)) =
    [discovered "/y"]
  ∧ isActiveIdentity (discovered "/x") (Some (doc_of leading_identity_lines)) =
    false
  ∧ setActiveGitHubIdentity "/z" (Some (doc_of leading_identity_lines)) =
    Some (doc_of ["IdentityFile /x"; "Host github.com"; "    IdentityFile /z"]).
Proof.
  apply (lines_before_first_host_are_inert (doc_of leading_identity_lines)
           ["IdentityFile /x"] ["Host github.com"; "    IdentityFile /y"]
           (discovered "/x") "/z").
  - reflexivity.
  - repeat constructor.
Defined.

(** ** Writing the lines and reading them back *)

Lemma split_lines_cons_other c rest :
  Ascii.eqb c Js.LF = false →
  (Ascii.eqb c Js.CR = true → ∀ rest', rest ≠ String Js.LF rest') →
  Js.split_lines (String c rest) = Js.cons_first c (Js.split_lines rest).
Proof.
  intros Hlf Hcr. cbn [Js.split_lines]. rewrite Hlf.
  destruct (Ascii.eqb c Js.CR) eqn:Hc; [|done].
  destruct rest as [|c' rest']; [done|].
  destruct (Ascii.eqb_spec c' Js.LF) as [->|]; [|done].
  by destruct (Hcr eq_refl rest').
Qed.

Lemma split_lines_noLF x : has_LF x = false → Js.split_lines x = [x].
Proof.
  induction x as [|c r IH]; [done|]. simpl has_LF.
  intros [Hc Hr]%orb_false_iff.
  rewrite split_lines_cons_other, (IH Hr); [done..|].
  intros _ rest' ->. discriminate Hr.
Qed.

(** A line followed by a line break is read back without a final carriage
    return. *)
Lemma split_lines_app_LF x s :
  has_LF x = false →
  Js.split_lines (x +:+ String Js.LF s) = chomp x :: Js.split_lines s.
Proof.
  induction x as [|c r IH]; [done|]. simpl has_LF.
  intros [Hc Hr]%orb_false_iff. specialize (IH Hr).
  change (String c r +:+ String Js.LF s) with (String c (r +:+ String Js.LF s)).
  destruct r as [|c' r'].
  - change ("" +:+ String Js.LF s) with (String Js.LF s) in *.
    cbn [Js.split_lines chomp]. rewrite Hc, Ascii.eqb_refl.
    by destruct (Ascii.eqb c Js.CR).
  - rewrite split_lines_cons_other, IH; [done..|].
    intros _ rest'.
    change (String c' r' +:+ String Js.LF s)
      with (String c' (r' +:+ String Js.LF s)).
    intros [= -> _]. discriminate Hr.
Qed.

Lemma join_lines_cons x y r :
  Js.join_lines (x :: y :: r) = x +:+ String Js.LF (Js.join_lines (y :: r)).
Proof. reflexivity. Qed.

Lemma split_join lines :
  Forall (λ l, has_LF l = false) lines →
  Js.split_lines (Js.join_lines lines) = reread lines.
Proof.
  induction lines as [|x r IH]; [done|]. intros [Hx Hr]%Forall_cons.
  destruct r as [|y r].
  - by apply split_lines_noLF.
  - rewrite join_lines_cons, split_lines_app_LF, IH; done.
Qed.

Lemma split_lines_has_LF s : Forall (λ l, has_LF l = false) (Js.split_lines s).
Proof.
  induction s as [s IHs] using (well_founded_induction
    (well_founded_ltof _ String.length)).
  destruct s as [|c rest]; [by repeat constructor|].
  assert (Forall (λ l, has_LF l = false) (Js.split_lines rest)) as Hrest.
  { apply IHs. unfold ltof. simpl. lia. }
  assert (Ascii.eqb c Js.LF = false →
          Forall (λ l, has_LF l = false) (Js.cons_first c (Js.split_lines rest)))
    as Hcons.
  { intros Hc. destruct (Js.split_lines rest) as [|p ps]; simpl.
    - constructor; [|done]. simpl. by rewrite Hc.
    - apply Forall_cons in Hrest as [Hp Hps].
      constructor; [|done]. simpl. by rewrite Hc, Hp. }
  cbn [Js.split_lines].
  destruct (Ascii.eqb c Js.LF) eqn:Hc; [by constructor|].
  destruct (Ascii.eqb c Js.CR); [|by apply Hcons].
  destruct rest as [|c' rest']; [by apply Hcons|].
  destruct (Ascii.eqb c' Js.LF); [|by apply Hcons].
  constructor; [done|]. apply IHs. unfold ltof. simpl. lia.
Qed.

Lemma chomp_id x : ends_CR x = false → chomp x = x.
Proof.
  induction x as [|c r IH]; [done|]. destruct r as [|c' r'].
  - simpl. by intros ->.
  - intros H. change (chomp (String c (String c' r')))
      with (String c (chomp (String c' r'))). by rewrite IH.
Qed.

Lemma reread_id lines :
  lines ≠ [] → Forall (λ l, ends_CR l = false) lines → reread lines = lines.
Proof.
  induction lines as [|x r IH]; [done|]. intros _ [Hx Hr]%Forall_cons.
  destruct r as [|y r]; [done|].
  change (reread (x :: y :: r)) with (chomp x :: reread (y :: r)).
  by rewrite chomp_id, IH.
Qed.

(** When the lines before the last one end in no carriage return, they are
    read back as they are. *)
Lemma reread_snoc lines x :
  Forall (λ l, ends_CR l = false) lines → reread (lines ++ [x]) = lines ++ [x].
Proof.
  induction lines as [|y r IH]; [done|]. intros [Hy Hr]%Forall_cons.
  rewrite <-app_comm_cons.
  destruct (r ++ [x]) as [|z t] eqn:Hrx; [by destruct r|].
  change (reread (y :: z :: t)) with (chomp y :: reread (z :: t)).
  rewrite chomp_id by done. by rewrite IH.
Qed.

(** One line replaced: it is read back as it is or without its final
    carriage return. *)
Lemma reread_insert lines i x :
  lines ≠ [] → Forall (λ l, ends_CR l = false) lines →
  ∃ x', (x' = x ∨ x' = chomp x) ∧ reread (<[i := x]> lines) = <[i := x']> lines.
Proof.
  revert i. induction lines as [|y r IH]; [done|].
  intros i _ [Hy Hr]%Forall_cons. destruct r as [|z r].
  - exists x. split; [by left|]. by destruct i.
  - destruct i as [|i].
    + exists (chomp x). split; [by right|].
      change (reread (<[0:=x]> (y :: z :: r)))
        with (chomp x :: reread (z :: r)).
      by rewrite reread_id.
    + destruct (IH i ltac:(done) Hr) as (x' & Hx' & Heq).
      exists x'. split; [done|].
      change (<[S i:=x]> (y :: z :: r)) with (y :: <[i:=x]> (z :: r)).
      change (<[S i:=x']> (y :: z :: r)) with (y :: <[i:=x']> (z :: r)).
      rewrite <-Heq.
      destruct (<[i:=x]> (z :: r)) as [|z' r'] eqn:Hins.
      { by destruct i. }
      change (reread (y :: z' :: r')) with (chomp y :: reread (z' :: r')).
      by rewrite chomp_id.
Qed.

(** ** Applying [setActiveGitHubIdentity] again *)

(** The loop stops at the same index after the line there has been replaced
    by another [IdentityFile] line. *)
Lemma setActive_loop_insert lines : ∀ b i y,
  setActive_loop b 0 lines = Some i →
  is_identityfile_line (Js.trim y) = true →
  setActive_loop b 0 (<[i := y]> lines) = Some i.
Proof.
  induction lines as [|l r IH]; intros b i y Hloop Hy; [done|].
  rewrite setActive_loop_cons in Hloop.
  destruct (next_scope b l && is_identityfile_line (Js.trim l)) eqn:Ht.
  - injection Hloop as <-. apply andb_true_iff in Ht as [Hs Hl].
    rewrite (next_scope_identityfile _ _ Hl) in Hs. subst b.
    change (<[0:=y]> (l :: r)) with (y :: r).
    by rewrite setActive_loop_cons, (next_scope_identityfile _ _ Hy), Hy.
  - rewrite (setActive_loop_shift _ 1) in Hloop.
    destruct (setActive_loop (next_scope b l) 0 r) as [i'|] eqn:Hr; [|done].
    injection Hloop as <-.
    match goal with
    | |- context [<[?n := y]> (l :: r)] =>
        change (<[n := y]> (l :: r)) with (l :: <[i' := y]> r)
    end.
    rewrite setActive_loop_cons, Ht, (setActive_loop_shift _ 1).
    by rewrite (IH _ _ _ Hr Hy).
Qed.

(** After the block has been appended, the loop stops at its second line. *)
Lemma setActive_loop_append lines k : ∀ b,
  setActive_loop b 0 lines = None →
  setActive_loop b 0 (lines ++ ["Host github.com"; identity_line k]) =
  Some (S (length lines)).
Proof.
  induction lines as [|l r IH]; intros b Hloop.
  - cbn [app length]. rewrite setActive_loop_cons.
    change (next_scope b "Host github.com") with true.
    change (is_identityfile_line (Js.trim "Host github.com")) with false.
    cbn [andb]. rewrite setActive_loop_cons.
    by rewrite (next_scope_identityfile _ _ (identity_line_is_identityfile k)),
      identity_line_is_identityfile.
  - rewrite setActive_loop_cons in Hloop. rewrite <-app_comm_cons.
    rewrite setActive_loop_cons.
    destruct (next_scope b l && is_identityfile_line (Js.trim l)); [done|].
    rewrite (setActive_loop_shift _ 1) in Hloop.
    rewrite (setActive_loop_shift _ 1).
    destruct (setActive_loop (next_scope b l) 0 r) eqn:Hr; [done|].
    by rewrite (IH _ Hr).
Qed.

(** On the lines in memory the mutation is idempotent, whatever the lines
    and the path are. *)
Lemma setActive_lines_idempotent k lines :
  setActive_lines k (setActive_lines k lines) = setActive_lines k lines.
Proof.
  unfold setActive_lines at 2 3.
  destruct (setActive_loop false 0 lines) as [i|] eqn:Hloop.
  - unfold setActive_lines.
    rewrite (setActive_loop_insert _ _ _ _ Hloop (identity_line_is_identityfile k)).
    apply list_insert_insert_eq.
  - unfold setActive_lines. rewrite (setActive_loop_append _ _ _ Hloop).
    rewrite (insert_app_r_alt _ _ (S (length lines))) by lia.
    by replace (S (length lines) - length lines) with 1 by lia.
Qed.

Lemma has_LF_identity_line k : has_LF (identity_line k) = has_LF k.
Proof. reflexivity. Qed.

Lemma chomp_identity_line k : chomp (identity_line k) = identity_line (chomp k).
Proof.
  destruct k; reflexivity.
Qed.

(** What is read back from the file [setActiveGitHubIdentity] wrote is
    mapped by a second call to the lines the first call wrote. *)
Lemma setActive_lines_reread k lines :
  lines ≠ [] → Forall (λ l, ends_CR l = false) lines →
  setActive_lines k (reread (setActive_lines k lines)) = setActive_lines k lines.
Proof.
  intros Hne Hcr. unfold setActive_lines at 2 3.
  destruct (setActive_loop false 0 lines) as [i|] eqn:Hloop.
  - destruct (reread_insert lines i (identity_line k) Hne Hcr)
      as (x' & Hx' & ->).
    assert (is_identityfile_line (Js.trim x') = true) as Hid.
    { destruct Hx' as [->| ->]; [|rewrite chomp_identity_line];
        apply identity_line_is_identityfile. }
    unfold setActive_lines. rewrite (setActive_loop_insert _ _ _ _ Hloop Hid).
    apply list_insert_insert_eq.
  - replace (lines ++ ["Host github.com"; identity_line k])
      with ((lines ++ ["Host github.com"]) ++ [identity_line k])
      by (by rewrite <-app_assoc).
    rewrite reread_snoc.
    + rewrite <-app_assoc. cbn [app].
      fold (setActive_lines k lines).
      pose proof (setActive_lines_idempotent k lines) as Hidem.
      unfold setActive_lines at 2 3 in Hidem. by rewrite Hloop in Hidem.
    + apply Forall_app. split; [done|]. by repeat constructor.
Qed.

(** The lines written hold no line feed when the path holds none, so the
    file is read back line for line, up to the carriage returns the
    separators take with them. *)
Lemma setActive_lines_no_LF k content :
  has_LF k = false →
  Forall (λ l, has_LF l = false) (setActive_lines k (Js.split_lines content)).
Proof.
  intros Hk. pose proof (split_lines_has_LF content) as Hlf.
  unfold setActive_lines. destruct (setActive_loop false 0 _).
  - apply Forall_insert; [done|]. by rewrite has_LF_identity_line.
  - apply Forall_app. split; [done|].
    repeat constructor. by rewrite has_LF_identity_line.
Qed.

Lemma setActive_read_back k content :
  has_LF k = false →
  Js.split_lines (Js.join_lines (setActive_lines k (Js.split_lines content))) =
  reread (setActive_lines k (Js.split_lines content)).
Proof. intros Hk. by apply split_join, setActive_lines_no_LF. Qed.

Lemma split_lines_not_nil content : Js.split_lines content ≠ [].
Proof.
  destruct content as [|c r]; [done|]. cbn [Js.split_lines].
  repeat case_match; try done; by (unfold Js.cons_first; case_match).
Qed.

(** C7, for a document none of whose lines ends with a carriage return and
    a path without a line feed: a second [setActive k] writes the file the
    first one wrote.  Without a file both calls do nothing. *)
Theorem setActive_twice (fs : config_file) (k : string) :
  has_LF k = false →
  (∀ content, fs = Some content →
     Forall (λ l, ends_CR l = false) (Js.split_lines content)) →
  setActiveGitHubIdentity k (setActiveGitHubIdentity k fs) =
  setActiveGitHubIdentity k fs.
Proof.
  intros Hk Hcr. destruct fs as [content|]; [|reflexivity].
  specialize (Hcr content eq_refl).
  cbn [setActiveGitHubIdentity]. f_equal. f_equal.
  rewrite setActive_read_back by done.
  apply setActive_lines_reread; [apply split_lines_not_nil|done].
Qed.

(** A document with line feeds only and an ordinary path. *)
Lemma setActive_twice_witness :
  setActiveGitHubIdentity "/home/u/.ssh/id_home"
    (setActiveGitHubIdentity "/home/u/.ssh/id_home"
       (Some (doc_of two_block_lines))) =
  setActiveGitHubIdentity "/home/u/.ssh/id_home" (Some (doc_of two_block_lines)).
Proof.
  apply setActive_twice.
  - reflexivity.
  - intros content [= <-]. vm_compute. repeat constructor.
Defined.

(** C7 as the spec words it fails: a line left with a carriage return at
    its end is written in front of a line break, and the second call reads
    the two as one separator; the two files differ in that carriage
    return. *)
Lemma setActive_twice_counterexample :
  setActiveGitHubIdentity "/k"
    (setActiveGitHubIdentity "/k" (Some stray_cr_document)) ≠
  setActiveGitHubIdentity "/k" (Some stray_cr_document).
Proof. discriminate. Qed.

(** A path with a line feed in it makes every further call append the part
    after the line feed once more. *)
Example setActive_twice_two_line_path :
  setActiveGitHubIdentity two_line_path (Some "") =
    Some (doc_of [""; "Host github.com"; "    IdentityFile /a"; "/b"])
  ∧ setActiveGitHubIdentity two_line_path
      (setActiveGitHubIdentity two_line_path (Some "")) =
    Some (doc_of [""; "Host github.com"; "    IdentityFile /a"; "/b"; "/b"]).
Proof. split; reflexivity. Qed.

(** ** The lines of the written file *)

Lemma reread_length lines : lines ≠ [] → length (reread lines) = length lines.
Proof.
  induction lines as [|x r IH]; [done|]. intros _.
  destruct r as [|y r]; [done|].
  change (reread (x :: y :: r)) with (chomp x :: reread (y :: r)).
  cbn [length]. by rewrite IH.
Qed.

(** Reading back keeps every line, up to a carriage return at its end. *)
Lemma reread_lookup lines : ∀ j x,
  lines !! j = Some x →
  ∃ w, reread lines !! j = Some w ∧ (w = x ∨ w = chomp x).
Proof.
  induction lines as [|y r IH]; intros j x Hj; [done|].
  destruct r as [|z r].
  - exists x. split; [done|by left].
  - change (reread (y :: z :: r)) with (chomp y :: reread (z :: r)).
    destruct j as [|j].
    + injection Hj as ->. exists (chomp x). split; [done|by right].
    + by apply IH.
Qed.

(** The last line is read back as it is. *)
Lemma reread_lookup_last lines x :
  reread (lines ++ [x]) !! length lines = Some x.
Proof.
  induction lines as [|y r IH]; [done|].
  rewrite <-app_comm_cons.
  destruct (r ++ [x]) as [|z t] eqn:Hrx; [by destruct r|].
  change (reread (y :: z :: t)) with (chomp y :: reread (z :: t)).
  exact IH.
Qed.

(** C8, for a path without line feed: the lines of the file [setActive k]
    writes are the lines of the file it read, each up to a carriage return
    at its end, except that either one line -- the first [IdentityFile]
    line inside a github-scoped block -- is the new [IdentityFile k] line,
    or two lines, [Host github.com] and [IdentityFile k], follow after
    them. *)
Theorem setActive_preserves_other_lines (content k : string) :
  has_LF k = false →
  ∃ written,
    setActiveGitHubIdentity k (Some content) = Some written
    ∧ ((∃ i,
          first_scoped_identity (Js.split_lines content) i
          ∧ length (Js.split_lines written) = length (Js.split_lines content)
          ∧ (∃ w, Js.split_lines written !! i = Some w
                  ∧ (w = "    IdentityFile " +:+ k
                     ∨ w = chomp ("    IdentityFile " +:+ k)))
          ∧ ∀ j l, j ≠ i → Js.split_lines content !! j = Some l →
                   ∃ w, Js.split_lines written !! j = Some w
                        ∧ (w = l ∨ w = chomp l))
       ∨ ((∀ i, ¬ scoped_identity (Js.split_lines content) i)
          ∧ length (Js.split_lines written) =
            length (Js.split_lines content) + 2
          ∧ Js.split_lines written !! length (Js.split_lines content) =
            Some "Host github.com"
          ∧ Js.split_lines written !! S (length (Js.split_lines content)) =
            Some ("    IdentityFile " +:+ k)
          ∧ ∀ j l, Js.split_lines content !! j = Some l →
                   ∃ w, Js.split_lines written !! j = Some w
                        ∧ (w = l ∨ w = chomp l))).
Proof.
  intros Hk. eexists. split; [reflexivity|].
  rewrite setActive_read_back by done.
  pose proof (split_lines_not_nil content) as Hne.
  revert Hne. generalize (Js.split_lines content) as lines. intros lines Hne.
  destruct (setActive_lines_cases k lines) as [(i & Hi & ->)|[Hno ->]].
  - left. exists i. split; [done|].
    assert (i < length lines) as Hlt.
    { destruct Hi as [[_ (l & Hl & _)] _]. by apply lookup_lt_Some in Hl. }
    assert (<[i:=identity_line k]> lines ≠ []) as Hne'.
    { intros Heq. apply (f_equal length) in Heq.
      rewrite length_insert in Heq. simpl in Heq. lia. }
    split; [by rewrite reread_length, length_insert|]. split.
    + apply reread_lookup. by apply list_lookup_insert_eq.
    + intros j l Hj Hl. apply reread_lookup.
      by rewrite list_lookup_insert_ne.
  - right. split; [done|].
    assert (lines ++ ["Host github.com"; identity_line k] ≠ []) as Hne'.
    { by destruct lines. }
    split; [by rewrite reread_length, length_app; simpl|].
    split; [|split].
    + destruct (reread_lookup (lines ++ ["Host github.com"; identity_line k])
                  (length lines) "Host github.com") as (w & -> & [->| ->]);
        [|done..].
      rewrite lookup_app_r by lia. by rewrite Nat.sub_diag.
    + replace (lines ++ ["Host github.com"; identity_line k])
        with ((lines ++ ["Host github.com"]) ++ [identity_line k])
        by (by rewrite <-app_assoc).
      replace (S (length lines)) with (length (lines ++ ["Host github.com"]))
        by (rewrite length_app; simpl; lia).
      apply reread_lookup_last.
    + intros j l Hl. apply reread_lookup.
      rewrite lookup_app_l; [done|]. by apply lookup_lt_Some in Hl.
Qed.

(** A document with a github-scoped [IdentityFile] line and a path of one
    word. *)
Lemma setActive_preserves_other_lines_witness :
  ∃ written,
    setActiveGitHubIdentity "/new" (Some (doc_of github_gitlab_lines)) =
      Some written
    ∧ Js.split_lines written =
      ["Host github.com"; "    IdentityFile /new"; "Host gitlab.com"].
Proof.
  destruct (setActive_preserves_other_lines (doc_of github_gitlab_lines) "/new"
              eq_refl) as (written & Hw & _).
  exists written. split; [exact Hw|].
  injection Hw as <-. reflexivity.
Defined.

(** C8 as the spec words it fails: with a line feed in the path the written
    document has one line more than the document read -- the part of the
    path after the line feed, on a line of its own in the middle of the
    file -- so its lines are neither those read with one of them replaced
    nor those read followed by two more. *)
Lemma setActive_preserves_other_lines_counterexample :
  ∃ written,
    setActiveGitHubIdentity two_line_path (Some (doc_of github_gitlab_lines)) =
      Some written
    ∧ Js.split_lines (doc_of github_gitlab_lines) = github_gitlab_lines
    ∧ Js.split_lines written =
      ["Host github.com"; "    IdentityFile /a"; "/b"; "Host gitlab.com"]
    ∧ ¬ (∃ i x, Js.split_lines written =
                <[i:=x]> (Js.split_lines (doc_of github_gitlab_lines)))
    ∧ ¬ (∃ x y, Js.split_lines written =
                Js.split_lines (doc_of github_gitlab_lines) ++ [x; y]).
Proof.
  eexists. split; [reflexivity|]. split; [reflexivity|].
  split; [reflexivity|]. split.
  - intros (i & x & Heq). apply (f_equal length) in Heq.
    rewrite length_insert in Heq. discriminate Heq.
  - intros (x & y & Heq). apply (f_equal length) in Heq.
    rewrite length_app in Heq. discriminate Heq.
Qed.

(** * Further properties of the engine *)

(** ** A carriage return at the end of a line is white space *)

Lemma trimEnd_chomp x : Js.trimEnd (chomp x) = Js.trimEnd x.
Proof.
  induction x as [|c r IH]; [done|]. destruct r as [|c' r'].
  - cbn [chomp]. destruct (Ascii.eqb_spec c Js.CR) as [->|]; done.
  - change (chomp (String c (String c' r')))
      with (String c (chomp (String c' r'))).
    cbn [Js.trimEnd]. by rewrite IH.
Qed.

Lemma trimStart_chomp x : Js.trimStart (chomp x) = chomp (Js.trimStart x).
Proof.
  induction x as [|c r IH]; [done|]. destruct r as [|c' r'].
  - cbn [chomp]. destruct (Ascii.eqb_spec c Js.CR) as [->|Hc]; [done|].
    cbn [Js.trimStart]. destruct (Js.is_ws c); [done|].
    cbn [chomp]. by destruct (Ascii.eqb_spec c Js.CR).
  - change (chomp (String c (String c' r')))
      with (String c (chomp (String c' r'))).
    cbn [Js.trimStart]. destruct (Js.is_ws c); [exact IH|done].
Qed.

Lemma trim_chomp x : Js.trim (chomp x) = Js.trim x.
Proof. unfold Js.trim. by rewrite trimStart_chomp, trimEnd_chomp. Qed.

(** The three loops only look at trimmed lines, so they do not see which
    lines lost a carriage return when the file was read back. *)
Lemma parse_loop_reread lines : ∀ acc ch idf,
  parse_loop acc ch idf (reread lines) = parse_loop acc ch idf lines.
Proof.
  induction lines as [|x r IH]; intros acc ch idf; [done|].
  destruct r as [|y r]; [done|].
  change (reread (x :: y :: r)) with (chomp x :: reread (y :: r)).
  cbn [parse_loop]. rewrite trim_chomp.
  destruct (is_host_line (Js.trim x)); [apply IH|].
  destruct (is_identityfile_line (Js.trim x) && is_github ch); apply IH.
Qed.

Lemma setActive_loop_reread lines : ∀ b n,
  setActive_loop b n (reread lines) = setActive_loop b n lines.
Proof.
  induction lines as [|x r IH]; intros b n.
  { cbn [reread]. rewrite setActive_loop_cons.
    change (is_identityfile_line (Js.trim "")) with false.
    by rewrite andb_false_r. }
  destruct r as [|y r]; [done|].
  change (reread (x :: y :: r)) with (chomp x :: reread (y :: r)).
  rewrite !setActive_loop_cons. unfold next_scope. rewrite trim_chomp.
  by rewrite IH.
Qed.

Lemma isActive_loop_reread kf lines : ∀ b,
  isActive_loop kf b (reread lines) = isActive_loop kf b lines.
Proof.
  induction lines as [|x r IH]; intros b.
  { cbn [reread]. rewrite isActive_loop_cons.
    change (is_identityfile_line (Js.trim "")) with false.
    by rewrite andb_false_r. }
  destruct r as [|y r]; [done|].
  change (reread (x :: y :: r)) with (chomp x :: reread (y :: r)).
  rewrite !isActive_loop_cons. unfold next_scope. rewrite trim_chomp.
  by rewrite IH.
Qed.

(** ** Tokens *)

Lemma has_ws_false_cons c r :
  has_ws (String c r) = false ↔ Js.is_ws c = false ∧ has_ws r = false.
Proof. simpl. apply orb_false_iff. Qed.

Lemma split_ws_from_word k :
  k ≠ "" → has_ws k = false → ∀ b, Js.split_ws_from b k = [k].
Proof.
  induction k as [|c r IH]; [done|]. intros _ [Hc Hr]%has_ws_false_cons b.
  cbn [Js.split_ws_from]. rewrite Hc.
  destruct r as [|c' r']; [done|]. by rewrite IH.
Qed.

Lemma trimEnd_word k : k ≠ "" → has_ws k = false → Js.trimEnd k = k.
Proof.
  induction k as [|c r IH]; [done|]. intros _ [Hc Hr]%has_ws_false_cons.
  destruct r as [|c' r'].
  - simpl. by rewrite Hc.
  - rewrite trimEnd_cons_nonws by done. by rewrite IH.
Qed.

Lemma split_ws_from_nonws b c r :
  Js.is_ws c = false →
  Js.split_ws_from b (String c r) = Js.cons_first c (Js.split_ws_from false r).
Proof. intros Hc. cbn [Js.split_ws_from]. by rewrite Hc. Qed.

Lemma split_ws_from_ws c r :
  Js.is_ws c = true →
  Js.split_ws_from false (String c r) = "" :: Js.split_ws_from true r.
Proof. intros Hc. cbn [Js.split_ws_from]. by rewrite Hc. Qed.

(** The line written for a path that is one word has that path as its
    argument. *)
Lemma second_token_identity_line k :
  k ≠ "" → has_ws k = false →
  second_token (Js.trim (identity_line k)) = Some k.
Proof.
  intros Hne Hws. unfold Js.trim.
  replace (Js.trimStart (identity_line k)) with ("IdentityFile " +:+ k)
    by reflexivity.
  lazy [String.append].
  repeat (rewrite trimEnd_cons_nonws by reflexivity).
  assert (Js.trimEnd (String " " k) = String " " k) as ->.
  { cbn [Js.trimEnd]. rewrite (trimEnd_word k) by done. by destruct k. }
  unfold second_token, Js.split_ws.
  repeat (rewrite split_ws_from_nonws by reflexivity).
  rewrite split_ws_from_ws by reflexivity.
  by rewrite split_ws_from_word.
Qed.

(** No piece of a split on white space holds white space. *)
Lemma split_ws_from_has_ws s : ∀ b,
  Forall (λ t, has_ws t = false) (Js.split_ws_from b s).
Proof.
  induction s as [|c r IH]; intros b; [by repeat constructor|].
  cbn [Js.split_ws_from]. destruct (Js.is_ws c) eqn:Hc.
  - destruct b; [apply IH|]. constructor; [done|apply IH].
  - specialize (IH false).
    destruct (Js.split_ws_from false r) as [|t ts]; simpl.
    + constructor; [|done]. simpl. by rewrite Hc.
    + apply Forall_cons in IH as [Ht Hts].
      constructor; [|done]. simpl. by rewrite Hc, Ht.
Qed.

(** The argument read from a line is one word and not empty. *)
Lemma second_token_word line a :
  second_token (Js.trim line) = Some a → a ≠ "" ∧ has_ws a = false.
Proof.
  intros Ha. split; [by apply (second_token_nonempty line)|].
  unfold second_token in Ha.
  pose proof (split_ws_from_has_ws (Js.trim line) false) as Hall.
  rewrite Forall_forall in Hall. apply Hall.
  by apply list_elem_of_lookup_2 in Ha.
Qed.

(** ** What [isActiveIdentity] and [parseGitHubSSHIdentities] see after
       [setActiveGitHubIdentity] *)

Lemma setActive_loop_lt lines b i :
  setActive_loop b 0 lines = Some i → i < length lines.
Proof.
  intros [Ht _]%setActive_loop_Some. unfold target_at in Ht.
  apply andb_true_iff in Ht as [_ Hl].
  destruct (lines !! i) eqn:Hi; [|done]. by apply lookup_lt_Some in Hi.
Qed.

(** On the lines it has written, the loop stops at the line it wrote. *)
Lemma setActive_lines_target k lines :
  ∃ i, setActive_loop false 0 (setActive_lines k lines) = Some i
       ∧ setActive_lines k lines !! i = Some (identity_line k).
Proof.
  unfold setActive_lines.
  destruct (setActive_loop false 0 lines) as [i|] eqn:Hloop.
  - exists i. split.
    + by apply setActive_loop_insert, identity_line_is_identityfile.
    + apply list_lookup_insert_eq. by apply setActive_loop_lt in Hloop.
  - exists (S (length lines)). split; [by apply setActive_loop_append|].
    rewrite lookup_app_r by lia.
    by replace (S (length lines) - length lines) with 1 by lia.
Qed.

Lemma has_ws_has_LF k : has_ws k = false → has_LF k = false.
Proof.
  induction k as [|c r IH]; [done|]. intros [Hc Hr]%has_ws_false_cons.
  simpl. rewrite (IH Hr), orb_false_r.
  destruct (Ascii.eqb_spec c Js.LF) as [->|]; [discriminate Hc|done].
Qed.

(** The answer of [isActiveIdentity] right after [setActiveGitHubIdentity]
    is read from the line just written. *)
Lemma isActive_after_setActive c k content :
  has_LF k = false →
  isActiveIdentity c (setActiveGitHubIdentity k (Some content)) =
  bool_decide (second_token (Js.trim (identity_line k)) = keyFile c).
Proof.
  intros Hk. cbn [setActiveGitHubIdentity isActiveIdentity].
  rewrite setActive_read_back by done.
  unfold isActive_lines. rewrite isActive_loop_reread, isActive_loop_target.
  destruct (setActive_lines_target k (Js.split_lines content))
    as (i & -> & ->). done.
Qed.

(** X1: after [setActive k] on an existing file, for a path [k] that is one
    word (not empty, no white space), [isActive] is true for the records
    whose [keyFile] is [k] and false for all others. *)
Theorem isActive_after_setActive_word
    (c : SSHConnection) (k content : string) :
  k ≠ "" → has_ws k = false →
  isActiveIdentity c (setActiveGitHubIdentity k (Some content)) =
  bool_decide (keyFile c = Some k).
Proof.
  intros Hne Hws.
  rewrite isActive_after_setActive by by apply has_ws_has_LF.
  rewrite second_token_identity_line by done.
  apply bool_decide_ext. split; congruence.
Qed.

Lemma isActive_after_setActive_word_witness :
  isActiveIdentity work_record
    (setActiveGitHubIdentity "/home/u/.ssh/id_work"
       (Some (doc_of two_block_lines))) = true.
Proof.
  refine (isActive_after_setActive_word work_record "/home/u/.ssh/id_work"
            (doc_of two_block_lines) _ _); done.
Defined.



(** What a second call, with any path, makes of the file the first call
    wrote. *)
Lemma setActive_lines_reread_other k1 k2 lines :
  lines ≠ [] → Forall (λ l, ends_CR l = false) lines →
  setActive_lines k2 (reread (setActive_lines k1 lines)) = setActive_lines k2 lines.
Proof.
  intros Hne Hcr. unfold setActive_lines at 2 3.
  destruct (setActive_loop false 0 lines) as [i|] eqn:Hloop.
  - destruct (reread_insert lines i (identity_line k1) Hne Hcr)
      as (x' & Hx' & ->).
    assert (is_identityfile_line (Js.trim x') = true) as Hid.
    { destruct Hx' as [->| ->]; [|rewrite chomp_identity_line];
        apply identity_line_is_identityfile. }
    unfold setActive_lines. rewrite (setActive_loop_insert _ _ _ _ Hloop Hid).
    apply list_insert_insert_eq.
  - replace (lines ++ ["Host github.com"; identity_line k1])
      with ((lines ++ ["Host github.com"]) ++ [identity_line k1])
      by (by rewrite <-app_assoc).
    rewrite reread_snoc.
    + rewrite <-app_assoc. cbn [app]. unfold setActive_lines.
      rewrite (setActive_loop_append _ _ _ Hloop).
      rewrite (insert_app_r_alt _ _ (S (length lines))) by lia.
      by replace (S (length lines) - length lines) with 1 by lia.
    + apply Forall_app. split; [done|]. by repeat constructor.
Qed.

(** X3: the last choice wins and the one before leaves no trace: for a
    document none of whose lines ends with a carriage return and a first
    path without line feed, [setActive k2] after [setActive k1] writes the
    file [setActive k2] alone writes. *)
Theorem setActive_overwrites (fs : config_file) (k1 k2 : string) :
  has_LF k1 = false →
  (∀ content, fs = Some content →
     Forall (λ l, ends_CR l = false) (Js.split_lines content)) →
  setActiveGitHubIdentity k2 (setActiveGitHubIdentity k1 fs) =
  setActiveGitHubIdentity k2 fs.
Proof.
  intros Hk Hcr. destruct fs as [content|]; [|reflexivity].
  specialize (Hcr content eq_refl).
  cbn [setActiveGitHubIdentity]. f_equal. f_equal.
  rewrite setActive_read_back by done.
  apply setActive_lines_reread_other; [apply split_lines_not_nil|done].
Qed.

Lemma setActive_overwrites_witness :
  setActiveGitHubIdentity "/home/u/.ssh/id_home"
    (setActiveGitHubIdentity "/home/u/.ssh/id_work" (Some "")) =
  setActiveGitHubIdentity "/home/u/.ssh/id_home" (Some "").
Proof.
  apply setActive_overwrites.
  - reflexivity.
  - intros content [= <-]. vm_compute. repeat constructor.
Defined.

(** X4: when [setActive k] has to append its block (no github-scoped block
    holds an [IdentityFile] line) and [k] is one word, [scan] of the new
    file is [scan] of the old one followed by the record of [k]. *)
Theorem scan_after_append (content k : string) :
  k ≠ "" → has_ws k = false →
  (∀ i, ¬ scoped_identity (Js.split_lines content) i) →
  parseGitHubSSHIdentities (setActiveGitHubIdentity k (Some content)) =
  parseGitHubSSHIdentities (Some content) ++ [discovered k].
Proof.
  intros Hne Hws Hnone.
  cbn [setActiveGitHubIdentity parseGitHubSSHIdentities].
  rewrite setActive_read_back by by apply has_ws_has_LF.
  unfold parse_lines at 1. rewrite parse_loop_reread.
  apply setActive_loop_none in Hnone. unfold setActive_lines. rewrite Hnone.
  rewrite parse_loop_app_host by reflexivity.
  fold (parse_lines (Js.split_lines content)). f_equal.
  change (second_token (Js.trim "Host github.com")) with (Some "github.com").
  cbn [parse_loop].
  rewrite identity_line_not_host, identity_line_is_identityfile.
  change (is_github (Some "github.com")) with true. cbn [andb].
  rewrite second_token_identity_line by done.
  by apply flush_github.
Qed.

Lemma scan_after_append_witness :
  parseGitHubSSHIdentities
    (setActiveGitHubIdentity "/home/u/.ssh/id_work"
       (Some (doc_of gitlab_only_lines))) =
  [] ++ [discovered "/home/u/.ssh/id_work"].
Proof.
  refine (scan_after_append (doc_of gitlab_only_lines)
            "/home/u/.ssh/id_work" _ _ _); [done..|].
  apply setActive_loop_none. reflexivity.
Defined.

(** ** Line ends *)

Lemma split_lines_app_CRLF x s :
  has_LF x = false →
  Js.split_lines (x +:+ String Js.CR (String Js.LF s)) = x :: Js.split_lines s.
Proof.
  induction x as [|c r IH]; [done|]. simpl has_LF.
  intros [Hc Hr]%orb_false_iff. specialize (IH Hr).
  change (String c r +:+ String Js.CR (String Js.LF s))
    with (String c (r +:+ String Js.CR (String Js.LF s))).
  rewrite split_lines_cons_other, IH; [done..|].
  intros _ rest'. destruct r as [|c' r'].
  - discriminate.
  - change (String c' r' +:+ String Js.CR (String Js.LF s))
      with (String c' (r' +:+ String Js.CR (String Js.LF s))).
    intros [= -> _]. discriminate Hr.
Qed.

Lemma split_join_crlf lines :
  lines ≠ [] → Forall (λ l, has_LF l = false) lines →
  Js.split_lines (join_crlf lines) = lines.
Proof.
  induction lines as [|x r IH]; [done|]. intros _ [Hx Hr]%Forall_cons.
  destruct r as [|y r].
  - by apply split_lines_noLF.
  - change (join_crlf (x :: y :: r))
      with (x +:+ String Js.CR (String Js.LF (join_crlf (y :: r)))).
    rewrite split_lines_app_CRLF by done. by rewrite IH.
Qed.

(** X5: line ends do not matter to the readers and are normalised by the
    writer: for lines without line feed, the document with CR LF line ends
    and the one with LF line ends give the same [scan] and the same
    [isActive] (a carriage return left at the end of a line is trimmed
    away), and [setActive] on the CR LF document writes the rewritten lines
    joined with LF. *)
Theorem line_ends_do_not_matter
    (lines : list string) (c : SSHConnection) (k : string) :
  lines ≠ [] → Forall (λ l, has_LF l = false) lines →
  parseGitHubSSHIdentities (Some (join_crlf lines)) =
    parseGitHubSSHIdentities (Some (Js.join_lines lines))
  ∧ isActiveIdentity c (Some (join_crlf lines)) =
    isActiveIdentity c (Some (Js.join_lines lines))
  ∧ setActiveGitHubIdentity k (Some (join_crlf lines)) =
    Some (Js.join_lines (setActive_lines k lines)).
Proof.
  intros Hne Hlf.
  cbn [parseGitHubSSHIdentities isActiveIdentity setActiveGitHubIdentity].
  rewrite split_join_crlf, split_join by done.
  unfold parse_lines, isActive_lines.
  by rewrite parse_loop_reread, isActive_loop_reread.
Qed.

Lemma line_ends_do_not_matter_witness :
  parseGitHubSSHIdentities (Some (join_crlf work_home_lines)) =
    parseGitHubSSHIdentities (Some (Js.join_lines work_home_lines))
  ∧ isActiveIdentity work_record (Some (join_crlf work_home_lines)) =
    isActiveIdentity work_record (Some (Js.join_lines work_home_lines))
  ∧ setActiveGitHubIdentity "/k" (Some (join_crlf work_home_lines)) =
    Some (Js.join_lines (setActive_lines "/k" work_home_lines)).
Proof.
  apply line_ends_do_not_matter; [done|]. repeat constructor.
Defined.

(** ** What [parseGitHubSSHIdentities] returns *)

Lemma flush_shape P acc ch idf :
  Forall P acc → (∀ f, idf = Some f → f ≠ "" → P (discovered f)) →
  Forall P (flush acc ch idf).
Proof.
  intros Hacc Hidf. unfold flush. destruct idf as [f|]; [|done].
  destruct (is_github ch); [|done]. simpl.
  destruct (String.eqb_spec f ""); [done|]. simpl.
  apply Forall_app. split; [done|]. constructor; [|done]. by apply Hidf.
Qed.

Lemma parse_loop_shape lines : ∀ acc ch idf,
  Forall (λ r, ∃ f, r = discovered f ∧ f ≠ "" ∧ has_ws f = false) acc →
  tracked_ok idf →
  Forall (λ r, ∃ f, r = discovered f ∧ f ≠ "" ∧ has_ws f = false)
         (parse_loop acc ch idf lines).
Proof.
  induction lines as [|l r IH]; intros acc ch idf Hacc Hidf.
  - apply flush_shape; [done|]. intros f Hf Hne. exists f. split; [done|].
    split; [done|]. by apply Hidf.
  - cbn [parse_loop]. destruct (is_host_line (Js.trim l)).
    + apply IH; [|by intros f [=]]. apply flush_shape; [done|].
      intros f Hf Hne. exists f. split; [done|]. split; [done|]. by apply Hidf.
    + destruct (is_identityfile_line (Js.trim l) && is_github ch).
      * apply IH; [done|]. intros f Hf _. by apply second_token_word in Hf as [_ ?].
      * by apply IH.
Qed.

(** X6: every record [scan] returns is the record of a key path that is one
    non-empty word: host [github.com], user [git], port 22, no author
    metadata, no password, and the base name of the path as its name. *)
Theorem scan_records_shape (fs : config_file) (r : SSHConnection) :
  r ∈ parseGitHubSSHIdentities fs →
  ∃ f, f ≠ "" ∧ has_ws f = false
       ∧ r = {| name := Js.basename f; host := "github.com"; user := "git";
                port := Some 22%N; keyFile := Some f;
                gitName := None; gitEmail := None; password := None |}.
Proof.
  destruct fs as [content|]; [|by intros ?%elem_of_nil].
  cbn [parseGitHubSSHIdentities]. unfold parse_lines. intros Hr.
  assert (tracked_ok None) as Hnone by (by intros f [=]).
  pose proof (parse_loop_shape (Js.split_lines content) [] None None
                (Forall_nil_2 _) Hnone) as Hall.
  rewrite Forall_forall in Hall.
  destruct (Hall r Hr) as (f & -> & Hne & Hws). by exists f.
Qed.

Lemma scan_records_shape_witness :
  ∃ f, f ≠ "" ∧ has_ws f = false
       ∧ discovered "/home/u/.ssh/id_home" =
         {| name := Js.basename f; host := "github.com"; user := "git";
            port := Some 22%N; keyFile := Some f;
            gitName := None; gitEmail := None; password := None |}.
Proof.
  apply (scan_records_shape (Some (doc_of work_home_lines))).
  vm_compute. apply elem_of_cons. right. apply elem_of_cons. by left.
Defined.

Lemma flush_length acc ch idf :
  length (flush acc ch idf) ≤ length acc + (if is_github ch then 1 else 0).
Proof.
  unfold flush. destruct idf as [f|]; [|lia].
  destruct (is_github ch); simpl; [|lia].
  destruct (negb _); [rewrite length_app; simpl|]; lia.
Qed.

Lemma github_blocks_cons l r :
  github_blocks (l :: r) =
  (if is_github_host_line l then 1 else 0) + github_blocks r.
Proof.
  unfold github_blocks. simpl. by destruct (is_github_host_line l).
Qed.

Lemma parse_loop_length lines : ∀ acc ch idf,
  length (parse_loop acc ch idf lines) ≤
  length acc + (if is_github ch then 1 else 0) + github_blocks lines.
Proof.
  induction lines as [|l r IH]; intros acc ch idf.
  - cbn [parse_loop]. pose proof (flush_length acc ch idf).
    unfold github_blocks. simpl. lia.
  - cbn [parse_loop]. rewrite github_blocks_cons. unfold is_github_host_line.
    destruct (is_host_line (Js.trim l)).
    + etransitivity; [apply IH|]. pose proof (flush_length acc ch idf).
      simpl. destruct (is_github (second_token (Js.trim l))); lia.
    + simpl.
      destruct (is_identityfile_line (Js.trim l) && is_github ch);
        (etransitivity; [apply IH|]); lia.
Qed.

(** What a block adds: the flush at its end. *)
Lemma parse_host_block pre h body post :
  is_host_line (Js.trim h) = true →
  Forall (λ x, is_host_line (Js.trim x) = false) body →
  (post = [] ∨ ∃ h' post', post = h' :: post' ∧ is_host_line (Js.trim h') = true) →
  ∃ idf,
    parse_lines (pre ++ h :: body ++ post) =
    parse_lines pre ++ flush [] (second_token (Js.trim h)) idf ++ parse_lines post.
Proof.
  intros Hh Hbody Hpost. unfold parse_lines at 1.
  rewrite parse_loop_app_host by done. fold (parse_lines pre).
  destruct (parse_loop_body body (second_token (Js.trim h)) None Hbody)
    as [idf Hidf].
  exists idf. f_equal. rewrite Hidf.
  destruct Hpost as [->|(h' & post' & -> & Hh')].
  - cbn [parse_loop]. by rewrite app_nil_r.
  - cbn [parse_loop]. rewrite Hh', parse_loop_acc.
    by rewrite parse_lines_host.
Qed.

(** X7: [scan] returns at most one record for each host block: a block
    ([Host] line [h], then the lines [body] up to the next [Host] line or
    the end of the document) adds, between the records of the lines before
    it and those of the lines after it, at most one record, and none when
    the pattern of [h] is not [github.com]; so the document yields no more
    records than it has [Host github.com] lines. *)
Theorem scan_at_most_one_per_block
    (content : string) (pre : list string) (h : string)
    (body post : list string) :
  Js.split_lines content = pre ++ h :: body ++ post →
  is_host_line (Js.trim h) = true →
  Forall (λ x, is_host_line (Js.trim x) = false) body →
  (post = [] ∨ ∃ h' post', post = h' :: post' ∧ is_host_line (Js.trim h') = true) →
  (∃ block,
     parseGitHubSSHIdentities (Some content) =
       parse_lines pre ++ block ++ parse_lines post
     ∧ length block ≤ 1
     ∧ (is_github_host_line h = false → block = []))
  ∧ length (parseGitHubSSHIdentities (Some content)) ≤
    github_blocks (Js.split_lines content).
Proof.
  intros Hsplit Hh Hbody Hpost. split.
  - cbn [parseGitHubSSHIdentities]. rewrite Hsplit.
    destruct (parse_host_block pre h body post Hh Hbody Hpost) as [idf ->].
    exists (flush [] (second_token (Js.trim h)) idf). split; [done|].
    pose proof (flush_length [] (second_token (Js.trim h)) idf) as Hlen.
    split.
    + destruct (is_github (second_token (Js.trim h))); simpl in Hlen; lia.
    + unfold is_github_host_line. rewrite Hh. cbn [andb]. intros Hg.
      rewrite Hg in Hlen. simpl in Hlen.
      destruct (flush [] (second_token (Js.trim h)) idf); [done|].
      simpl in Hlen. lia.
  - cbn [parseGitHubSSHIdentities]. unfold parse_lines.
    etransitivity; [apply parse_loop_length|]. simpl. lia.
Qed.

(** The middle block of three, with two [IdentityFile] lines, adds one
    record. *)
Lemma scan_at_most_one_per_block_witness :
  (∃ block,
     parseGitHubSSHIdentities (Some (doc_of three_block_lines)) =
       parse_lines ["Host github.com"; "    IdentityFile /g1"] ++ block ++
       parse_lines ["Host github.com"; "    IdentityFile /g2"]
     ∧ length block ≤ 1
     ∧ (is_github_host_line "Host github.com" = false → block = []))
  ∧ length (parseGitHubSSHIdentities (Some (doc_of three_block_lines))) ≤
    github_blocks (Js.split_lines (doc_of three_block_lines)).
Proof.
  apply (scan_at_most_one_per_block (doc_of three_block_lines)
           ["Host github.com"; "    IdentityFile /g1"]
           "Host github.com"
           ["    IdentityFile /a"; "    User git"; "    IdentityFile /b";
            "    Port 22"]
           ["Host github.com"; "    IdentityFile /g2"]).
  - reflexivity.
  - reflexivity.
  - repeat constructor.
  - right. eexists _, _. split; reflexivity.
Defined.

(** ** The merged view again *)

Lemma merge_step_keys all c :
  keyFile c ∈ keyFile <$> merge_step all c
  ∧ ∀ kf, kf ∈ keyFile <$> all → kf ∈ keyFile <$> merge_step all c.
Proof.
  destruct (decide (keyFile c ∈ keyFile <$> all)) as [Hin|Hnot].
  - by rewrite (merge_step_known _ _ Hin).
  - rewrite (merge_step_fresh _ _ Hnot), fmap_app. split.
    + apply elem_of_app. right. simpl. by apply list_elem_of_singleton.
    + intros kf Hkf. apply elem_of_app. by left.
Qed.

Lemma merge_fold_known disc : ∀ all,
  (∀ d, d ∈ disc → keyFile d ∈ keyFile <$> all) →
  fold_left merge_step disc all = all.
Proof.
  induction disc as [|c disc IH]; intros all Hknown; [done|].
  simpl. rewrite merge_step_known.
  - apply IH. intros d Hd. apply Hknown, elem_of_cons. by right.
  - apply Hknown, elem_of_cons. by left.
Qed.

(** X8: the merged view is stable: merging the identities of the same file
    into the view once more adds nothing. *)
Theorem getChildren_stable (connections : list SSHConnection) (fs : config_file) :
  getChildren (getChildren connections fs) fs = getChildren connections fs.
Proof.
  unfold getChildren at 1. apply merge_fold_known.
  unfold getChildren.
  destruct (merge_fold (parseGitHubSSHIdentities fs) connections)
    as (extra & -> & _ & _ & _ & Hcov). done.
Qed.

Lemma find_key_app_known (kf : option string) all c rest :
  keyFile c ∈ keyFile <$> all →
  List.find (λ e, bool_decide (keyFile e = kf)) (all ++ c :: rest) =
  List.find (λ e, bool_decide (keyFile e = kf)) (all ++ rest).
Proof.
  induction all as [|x all IH]; intros Hin.
  - by apply elem_of_nil in Hin.
  - simpl. destruct (bool_decide (keyFile x = kf)) eqn:Hx; [done|].
    rewrite fmap_cons in Hin. apply elem_of_cons in Hin as [Heq|Hin].
    + clear IH. apply bool_decide_eq_false in Hx.
      assert (bool_decide (keyFile c = kf) = false) as Hc.
      { apply bool_decide_eq_false. congruence. }
      induction all as [|y all IH]; simpl; [by rewrite Hc|].
      destruct (bool_decide (keyFile y = kf)); [done|apply IH].
    + by apply IH.
Qed.

Lemma find_key_merge (kf : option string) disc : ∀ all,
  List.find (λ e, bool_decide (keyFile e = kf)) (fold_left merge_step disc all) =
  List.find (λ e, bool_decide (keyFile e = kf)) (all ++ disc).
Proof.
  induction disc as [|c disc IH]; intros all; [by rewrite app_nil_r|].
  simpl fold_left. rewrite IH.
  destruct (decide (keyFile c ∈ keyFile <$> all)) as [Hin|Hnot].
  - rewrite (merge_step_known _ _ Hin). by rewrite find_key_app_known.
  - rewrite (merge_step_fresh _ _ Hnot). by rewrite <-app_assoc.
Qed.

(** X9: looking a key up in the managed records followed by all discovered
    ones, as the set-active command does, finds the record the merged view
    shows for that key: the first record of that [keyFile] is the same in
    both lists. *)
Theorem lookup_agrees_with_view
    (connections : list SSHConnection) (fs : config_file) (kf : option string) :
  List.find (λ c, bool_decide (keyFile c = kf))
            (connections ++ parseGitHubSSHIdentities fs) =
  List.find (λ c, bool_decide (keyFile c = kf)) (getChildren connections fs).
Proof. unfold getChildren. by rewrite find_key_merge. Qed.

(** ** Strings *)

Lemma str_app_cons c s t : String c s +:+ t = String c (s +:+ t).
Proof. reflexivity. Qed.

Lemma str_app_nil_l t : "" +:+ t = t.
Proof. reflexivity. Qed.


Lemma str_app_assoc s t u : (s +:+ t) +:+ u = s +:+ t +:+ u.
Proof. induction s as [|c r IH]; [done|]. by rewrite !str_app_cons, IH. Qed.

Lemma str_length_app s t :
  String.length (s +:+ t) = String.length s + String.length t.
Proof. induction s as [|c r IH]; [done|]. rewrite str_app_cons. simpl. lia. Qed.

Lemma has_char_app x s t : has_char x (s +:+ t) = has_char x s || has_char x t.
Proof.
  induction s as [|c r IH]; [done|]. rewrite str_app_cons. simpl.
  by rewrite IH, orb_assoc.
Qed.

(** ** The pattern of [updateGitConfigAuthor] *)

Lemma strip_prefix_Some p s t : strip_prefix p s = Some t ↔ s = p +:+ t.
Proof.
  revert s. induction p as [|a p IH]; intros s; simpl.
  - rewrite str_app_nil_l. split; congruence.
  - rewrite str_app_cons. destruct s as [|b s]; [split; discriminate|].
    destruct (Ascii.eqb_spec a b) as [->|Hab].
    + rewrite IH. split; congruence.
    + split; [discriminate|]. congruence.
Qed.



Lemma span_section_spec s body rest :
  span_section s = (body, rest) →
  s = body +:+ rest ∧ has_char "[" body = false ∧ at_section_start rest.
Proof.
  revert body rest. induction s as [|c r IH]; intros body rest; simpl.
  - intros [= <- <-]. repeat split. by left.
  - destruct (Ascii.eqb_spec c "[") as [->|Hc].
    + intros [= <- <-]. repeat split. right. by eexists.
    + destruct (span_section r) as [b' r'] eqn:Hr. intros [= <- <-].
      destruct (IH b' r' eq_refl) as (-> & Hb & Hrest).
      repeat split; [|done]. simpl. rewrite Hb.
      by destruct (Ascii.eqb_spec c "[").
Qed.





(** What a match is: the section starts with the tag, runs up to the next
    opening bracket, and the tag does not occur further left. *)
Lemma match_user_section_Some s : ∀ b m a,
  match_user_section s = Some (b, m, a) →
  ∃ body, m = "[user]" +:+ body ∧ s = b +:+ "[user]" +:+ body +:+ a
          ∧ has_char "[" body = false ∧ at_section_start a
          ∧ ¬ occurs "[user]" (b +:+ "[user").
Proof.
  induction s as [|c r IH]; intros b m a.
  - discriminate.
  - cbn [match_user_section].
    destruct (strip_prefix "[user]" (String c r)) as [tail|] eqn:Hstrip.
    + destruct (span_section tail) as [body rest] eqn:Hspan.
      intros [= <- <- <-]. exists body.
      apply strip_prefix_Some in Hstrip.
      apply span_section_spec in Hspan as (-> & Hbody & Hrest).
      repeat split; [done..|].
      intros (b' & a' & Heq). apply (f_equal String.length) in Heq.
      rewrite !str_length_app in Heq. simpl in Heq. lia.
    + destruct (match_user_section r) as [[[b1 m1] a1]|] eqn:Hr; [|done].
      intros [= <- <- <-].
      destruct (IH b1 m1 a1 eq_refl) as (body & -> & Hs & Hbody & Hrest & Hfirst).
      exists body. rewrite str_app_cons. repeat split; [by rewrite Hs|done..|].
      intros (b' & a' & Heq). destruct b' as [|c' b'].
      * rewrite str_app_nil_l in Heq.
        assert (strip_prefix "[user]" (String c r) = Some (a' +:+ "]" +:+ body +:+ a1))
          as Hsome; [|congruence].
        apply strip_prefix_Some. rewrite Hs.
        change ("[user]" +:+ body +:+ a1) with ("[user" +:+ "]" +:+ body +:+ a1).
        rewrite <-str_app_cons, <-(str_app_assoc _ "[user"), Heq.
        by rewrite !str_app_assoc.
      * rewrite !str_app_cons in Heq. injection Heq as _ Heq.
        apply Hfirst. by exists b', a'.
Qed.

Lemma match_user_section_None s :
  match_user_section s = None ↔ ¬ occurs "[user]" s.
Proof.
  split.
  - induction s as [|c r IH]; intros Hnone (b & a & Heq).
    + apply (f_equal String.length) in Heq.
      rewrite !str_length_app in Heq. simpl in Heq. lia.
    + cbn [match_user_section] in Hnone.
      destruct (strip_prefix "[user]" (String c r)) as [tail|] eqn:Hstrip.
      { by destruct (span_section tail). }
      destruct b as [|c' b].
      * rewrite str_app_nil_l in Heq.
        apply strip_prefix_Some in Heq. congruence.
      * rewrite str_app_cons in Heq. injection Heq as _ Heq.
        destruct (match_user_section r) as [[[? ?] ?]|]; [done|].
        apply IH; [done|]. by exists b, a.
  - intros Hno. destruct (match_user_section s) as [[[b m] a]|] eqn:Hm; [|done].
    apply match_user_section_Some in Hm as (body & -> & -> & _).
    destruct Hno. exists b, (body +:+ a). done.
Qed.



Lemma get_substitution_plain m b a tpl :
  has_char "$" tpl = false → get_substitution m b a tpl = tpl.
Proof.
  induction tpl as [|c r IH]; [done|]. simpl has_char.
  intros [Hc Hr]%orb_false_iff. cbn [get_substitution]. rewrite Hc.
  by rewrite (IH Hr).
Qed.


Lemma user_section_no_dollar name email :
  has_char "$" name = false → has_char "$" email = false →
  has_char "$" (user_section name email) = false.
Proof.
  intros Hn He. unfold user_section. by rewrite !has_char_app, Hn, He.
Qed.


(** ** [updateGitConfigAuthor] on an existing [.git/config] *)

(** X10: for a name and an email without dollar sign, the patch replaces
    the first [[user]] section -- from the first occurrence of the tag up to
    the next opening bracket or the end -- by the new section and keeps the
    text before and after it byte for byte; when the tag does not occur, the
    new section is appended after a line feed. *)
Theorem patch_git_config_frame (name email config : string) :
  has_char "$" name = false → has_char "$" email = false →
  (¬ occurs "[user]" config
   ∧ patch_git_config name email config =
     config +:+ String Js.LF (user_section name email))
  ∨ ∃ before body after,
      config = before +:+ "[user]" +:+ body +:+ after
      ∧ ¬ occurs "[user]" (before +:+ "[user")
      ∧ has_char "[" body = false ∧ at_section_start after
      ∧ patch_git_config name email config =
        before +:+ user_section name email +:+ after.
Proof.
  intros Hn He. unfold patch_git_config.
  destruct (match_user_section config) as [[[b m] a]|] eqn:Hm.
  - right. apply match_user_section_Some in Hm
      as (body & -> & -> & Hbody & Hafter & Hfirst).
    exists b, body, a. repeat split; [done..|].
    by rewrite get_substitution_plain by by apply user_section_no_dollar.
  - left. by apply match_user_section_None in Hm.
Qed.

Lemma patch_git_config_frame_witness :
  (¬ occurs "[user]" sample_git_config
   ∧ patch_git_config "New" "new@example.org" sample_git_config =
     sample_git_config +:+ String Js.LF (user_section "New" "new@example.org"))
  ∨ ∃ before body after,
      sample_git_config = before +:+ "[user]" +:+ body +:+ after
      ∧ ¬ occurs "[user]" (before +:+ "[user")
      ∧ has_char "[" body = false ∧ at_section_start after
      ∧ patch_git_config "New" "new@example.org" sample_git_config =
        before +:+ user_section "New" "new@example.org" +:+ after.
Proof. apply patch_git_config_frame; reflexivity. Defined.




(** A dollar sign in the name is read as a replacement pattern when a
    section is replaced, and as itself when the section is appended. *)
Example patch_git_config_dollar :
  patch_git_config "$&" "e" "[user]" =
    "[user]" +:+ String Js.LF (String TAB "name = [user]") +:+
    String Js.LF (String TAB "email = e") +:+ String Js.LF ""
  ∧ patch_git_config "$&" "e" "" =
    String Js.LF "[user]" +:+ String Js.LF (String TAB "name = $&") +:+
    String Js.LF (String TAB "email = e") +:+ String Js.LF "".
Proof. split; reflexivity. Qed.

(** ** The set-active command of the provider *)

Lemma parse_records_discovered fs r :
  r ∈ parseGitHubSSHIdentities fs → ∃ f, r = discovered f.
Proof.
  destruct fs as [content|]; [|by intros ?%elem_of_nil].
  cbn [parseGitHubSSHIdentities]. unfold parse_lines. intros Hr.
  assert (tracked_ok None) as Hnone by (by intros f [=]).
  pose proof (parse_loop_shape (Js.split_lines content) [] None None
                (Forall_nil_2 _) Hnone) as Hall.
  rewrite Forall_forall in Hall.
  destruct (Hall r Hr) as (f & -> & _). by exists f.
Qed.

Lemma find_app_cases {A} (p : A → bool) l1 l2 :
  List.find p (l1 ++ l2) =
  match List.find p l1 with
  | Some x => Some x
  | None => List.find p l2
  end.
Proof.
  induction l1 as [|x l1 IH]; [done|]. simpl. by destruct (p x).
Qed.

(** X12: the git author patch of the set-active command is decided by the
    managed records alone: the identities discovered in the SSH
    configuration carry no author, so the outcome is the one of a lookup in
    the managed list, whatever the SSH configuration holds -- also when that
    file is missing and nothing could be written to it. *)
Theorem provider_setActive_author
    (connections : list SSHConnection) (k : string) (fs : files) :
  SSHConnectionProvider.setActiveGitHubIdentity connections k fs =
  {| ssh_config := setActiveGitHubIdentity k (ssh_config fs);
     git_workspace :=
       match List.find (λ c, bool_decide (keyFile c = Some k)) connections with
       | Some conn =>
           match gitName conn, gitEmail conn with
           | Some gn, Some ge =>
               if negb (String.eqb gn "") && negb (String.eqb ge "")
               then updateGitConfigAuthor gn ge (git_workspace fs)
               else git_workspace fs
           | _, _ => git_workspace fs
           end
       | None => git_workspace fs
       end |}.
Proof.
  unfold SSHConnectionProvider.setActiveGitHubIdentity.
  rewrite find_app_cases.
  destruct (List.find _ connections) as [conn|] eqn:Hfind.
  - destruct (gitName conn) as [gn|], (gitEmail conn) as [ge|]; try done.
    simpl. by destruct (negb (String.eqb gn "") && negb (String.eqb ge "")).
  - destruct (List.find _ (parseGitHubSSHIdentities _)) as [conn|] eqn:Hd; [|done].
    apply find_some in Hd as [Hin _]. apply list_elem_of_In in Hin.
    by apply parse_records_discovered in Hin as [f ->].
Qed.

(** ** [deleteConnection] *)

(** X13: [deleteConnection] goes by the name alone: it takes out the first
    managed record with the name of its argument, whatever the other fields
    of the argument are, and leaves the list as it is when no managed record
    has that name. *)
Theorem deleteConnection_first_of_name
    (connection : SSHConnection) (connections : list SSHConnection) :
  (Forall (λ c, name c ≠ name connection) connections
   ∧ SSHConnectionProvider.deleteConnection connection connections = connections)
  ∨ ∃ l1 x l2,
      connections = l1 ++ x :: l2
      ∧ Forall (λ c, name c ≠ name connection) l1
      ∧ name x = name connection
      ∧ SSHConnectionProvider.deleteConnection connection connections = l1 ++ l2.
Proof.
  unfold SSHConnectionProvider.deleteConnection.
  destruct (list_find _ connections) as [[i x]|] eqn:Hfind.
  - right. apply list_find_Some in Hfind as (Hi & Hx & Hbefore).
    exists (take i connections), x, (drop (S i) connections).
    split; [by rewrite take_drop_middle|]. split; [|split; [done|]].
    + apply Forall_forall. intros y Hy.
      apply list_elem_of_lookup in Hy as [j Hj].
      apply lookup_take_Some in Hj as [Hj Hlt]. by apply (Hbefore j).
    + apply delete_take_drop.
  - left. apply list_find_None in Hfind. done.
Qed.
